(** * Badminton tracker and tournament pairer: a shallow embedding

    The development follows the two Python modules of the repository:
    - [badminton_tracker.py]  (class [BadmintonTracker]): the player store,
      the match recorder and the Elo rating update;
    - [tournament_pairer.py]  (class [TournamentPairer]): the pairing
      generator.

    Conventions of the embedding.
    - A Python [dict] keyed by player names is an association list in
      insertion order (this is the order [dict.items()] iterates in, and the
      order a stable sort keeps among equal ratings).
    - Python integers are [Z].
    - The ratings have two readings.  In [BadmintonTracker] they are the
      real numbers they denote and the arithmetic on them is exact ([R]):
      this is the Elo formula as it is written, and the store as far as it
      does not depend on the arithmetic (names, counters, matches, the
      file).  It has no rounding and no [OverflowError].  In [Binary64] they
      are the binary64 floats CPython computes with, every operation rounded,
      [10 ** x] raising [OverflowError]: this is what is stored and what is
      raised.  Statements about stored ratings and about exceptions of the
      match recorder are made on [Binary64].
    - A raised exception is a value of an error type; a method that mutates
      [self] takes the state and returns the new one. *)

From Stdlib Require Import Reals Lra ZArith List String Ascii Lia Bool Arith.
From Stdlib Require Import Permutation Sorted.
From Stdlib Require Floats.
Import ListNotations.

Set Implicit Arguments.

(* ================================================================== *)
(** * Python dictionaries with string keys *)

Module Dict.
Section Dict.
Variable V : Type.

Definition dict : Type := list (string * V).

  (** [d[k]]; [None] stands for [KeyError]. *)
Fixpoint get (d : dict) (k : string) : option V :=
    match d with
    | [] => None
    | (k', v) :: d' => if String.eqb k' k then Some v else get d' k
    end.

  (** [k in d] *)
Definition mem (d : dict) (k : string) : bool :=
    match get d k with Some _ => true | None => false end.

  (** [d[k] = v]: an existing key keeps its position, a new key goes last. *)
Fixpoint set (d : dict) (k : string) (v : V) : dict :=
    match d with
    | [] => [(k, v)]
    | (k', v') :: d' =>
        if String.eqb k' k then (k', v) :: d' else (k', v') :: set d' k v
    end.

  (** [d[k][field] = ...]: the entry under [k] is replaced by [f] of it;
      [None] stands for the [KeyError] of the read [d[k]]. *)
Definition modify (d : dict) (k : string) (f : V -> V) : option dict :=
    match get d k with
    | Some v => Some (set d k (f v))
    | None => None
    end.

(** [list(d.keys())] *)
Definition keys (d : dict) : list string := map fst d.
End Dict.
End Dict.

(* ================================================================== *)
(** * The player statistics object

    [{"rating": ..., "matches": ..., "wins": ...}] *)

Record Player : Type := mkPlayer {
  rating : R;
  matches : Z;
  wins : Z
}.

Definition Players : Type := Dict.dict Player.

(* ================================================================== *)
(** * Timestamps

    [datetime.now()] gives a naive [datetime] (no time zone); the store keeps
    it as the text [isoformat()] prints and reads it back with
    [fromisoformat].  The model has the naive timestamps of the proleptic
    Gregorian calendar and, for reading, the grammar
    [YYYY-MM-DD[*HH[:MM[:SS[.fff[fff]]]]]] where [*] is any one character;
    a text with a UTC offset is not in the model. *)

Module Datetime.

Local Open Scope N_scope.

Record datetime : Type := mkDatetime {
  year : N;
  month : N;
  day : N;
  hour : N;
  minute : N;
  second : N;
  microsecond : N
}.

Definition is_leap (y : N) : bool :=
  (y mod 4 =? 0) && (negb (y mod 100 =? 0) || (y mod 400 =? 0)).

Definition days_in_month (y m : N) : N :=
  match m with
  | 2 => if is_leap y then 29 else 28
  | 4 | 6 | 9 | 11 => 30
  | _ => 31
  end.

(** The ranges the [datetime] constructor enforces ([ValueError] outside). *)
Definition valid (d : datetime) : bool :=
  (1 <=? year d) && (year d <=? 9999)
  && (1 <=? month d) && (month d <=? 12)
  && (1 <=? day d) && (day d <=? days_in_month (year d) (month d))
  && (hour d <? 24) && (minute d <? 60) && (second d <? 60)
  && (microsecond d <? 1000000).

(** ** Printing *)

Definition digit (n : N) : ascii := ascii_of_N (48 + n).

(** ["%02d"] in front of [rest] *)
Definition pad2 (n : N) (rest : string) : string :=
  String (digit (n / 10)) (String (digit (n mod 10)) rest).

(** ["%04d"] in front of [rest] *)
Definition pad4 (n : N) (rest : string) : string :=
  pad2 (n / 100) (pad2 (n mod 100) rest).

(** ["%06d"] in front of [rest] *)
Definition pad6 (n : N) (rest : string) : string :=
  pad2 (n / 10000) (pad4 (n mod 10000) rest).

(** [d.isoformat()]: [YYYY-MM-DDTHH:MM:SS], and [.ffffff] when the
    microsecond is not zero. *)
Definition isoformat (d : datetime) : string :=
  pad4 (year d) (String "-" (pad2 (month d) (String "-" (pad2 (day d)
    (String "T" (pad2 (hour d) (String ":" (pad2 (minute d) (String ":"
      (pad2 (second d)
        (if microsecond d =? 0 then EmptyString
         else String "." (pad6 (microsecond d) EmptyString)))))))))))).

(** ** Reading *)

Definition digit_value (c : ascii) : option N :=
  let n := N_of_ascii c in
  if (48 <=? n) && (n <=? 57) then Some (n - 48) else None.

(** [k] decimal digits at the head of [s]: their value (after [acc]) and the
    rest of [s]. *)
Fixpoint digits (k : nat) (acc : N) (s : string) : option (N * string) :=
  match k with
  | O => Some (acc, s)
  | S k' =>
      match s with
      | EmptyString => None
      | String c s' =>
          match digit_value c with
          | Some v => digits k' (10 * acc + v) s'
          | None => None
          end
      end
  end.

(** The character [c] at the head of [s]. *)
Definition expect (c : ascii) (s : string) : option string :=
  match s with
  | String c' s' => if Ascii.eqb c' c then Some s' else None
  | EmptyString => None
  end.

(** [.fff] or [.ffffff], or nothing. *)
Definition parse_fraction (s : string) : option N :=
  match s with
  | EmptyString => Some 0
  | String c s' =>
      if Ascii.eqb c "." then
        match String.length s' with
        | 3%nat =>
            match digits 3 0 s' with
            | Some (v, _) => Some (v * 1000)
            | None => None
            end
        | 6%nat =>
            match digits 6 0 s' with
            | Some (v, _) => Some v
            | None => None
            end
        | _ => None
        end
      else None
  end.

(** [HH[:MM[:SS[.fff[fff]]]]]: hour, minute, second, microsecond. *)
Definition parse_time (s : string) : option (N * N * N * N) :=
  match digits 2 0 s with
  | None => None
  | Some (hh, EmptyString) => Some (hh, 0, 0, 0)
  | Some (hh, s1) =>
      match expect ":" s1 with
      | None => None
      | Some s2 =>
          match digits 2 0 s2 with
          | None => None
          | Some (mm, EmptyString) => Some (hh, mm, 0, 0)
          | Some (mm, s3) =>
              match expect ":" s3 with
              | None => None
              | Some s4 =>
                  match digits 2 0 s4 with
                  | None => None
                  | Some (ss, s5) =>
                      match parse_fraction s5 with
                      | Some us => Some (hh, mm, ss, us)
                      | None => None
                      end
                  end
              end
          end
      end
  end.

(** [YYYY-MM-DD] and the rest of the text. *)
Definition parse_date (s : string) : option (N * N * N * string) :=
  match digits 4 0 s with
  | None => None
  | Some (y, s1) =>
      match expect "-" s1 with
      | None => None
      | Some s2 =>
          match digits 2 0 s2 with
          | None => None
          | Some (m, s3) =>
              match expect "-" s3 with
              | None => None
              | Some s4 =>
                  match digits 2 0 s4 with
                  | None => None
                  | Some (d, s5) => Some (y, m, d, s5)
                  end
              end
          end
      end
  end.

(** The constructor call at the end of [fromisoformat]. *)
Definition checked (d : datetime) : option datetime :=
  if valid d then Some d else None.

(** [datetime.fromisoformat(s)] on the grammar above.  [Some d]: Python
    reads [s] as the naive timestamp [d], in every version that has
    [fromisoformat].  [None]: [s] is outside the grammar; Python raises
    [ValueError] for it unless [s] is one of the further forms it reads (a
    text with a UTC offset; from 3.11 on also fractions of other lengths and
    dates without dashes), which are not texts [isoformat] prints for a
    naive timestamp. *)
Definition fromisoformat (s : string) : option datetime :=
  match parse_date s with
  | None => None
  | Some (y, m, d, EmptyString) => checked (mkDatetime y m d 0 0 0 0)
  | Some (y, m, d, String _ tstr) =>
      match parse_time tstr with
      | Some (hh, mm, ss, us) => checked (mkDatetime y m d hh mm ss us)
      | None => None
      end
  end.

End Datetime.

(* ================================================================== *)
(** * badminton_tracker.py *)

Module BadmintonTracker.
Import Datetime.

Local Open Scope R_scope.

(** A match record; [D] is the type of its ["date"]: a [datetime] in
    memory, the ISO text in the data file. *)
Record MatchOf (D : Type) : Type := mkMatch {
  date : D;
  team1_players : list string;
  team2_players : list string;
  team1_score : Z;
  team2_score : Z
}.

Definition Match : Type := MatchOf datetime.

(** [match.copy()] with ["date"] replaced. *)
Definition with_date (D E : Type) (m : MatchOf D) (d : E) : MatchOf E :=
  mkMatch d (team1_players m) (team2_players m)
          (team1_score m) (team2_score m).

(** The record kept in the data file: [{"players": ..., "matches": ...}]. *)
Record Data : Type := mkData {
  data_players : Players;
  data_matches : list (MatchOf string)
}.

(** The tracker with its data file: [self.players], [self.matches], the
    content of [self.data_file] ([None] while the file does not exist) and
    the number of times the file has been written. *)
Record Tracker : Type := mkTracker {
  self_players : Players;
  self_matches : list Match;
  file : option Data;
  writes : nat
}.

Definition set_players (t : Tracker) (ps : Players) : Tracker :=
  mkTracker ps (self_matches t) (file t) (writes t).

Definition set_matches (t : Tracker) (ms : list Match) : Tracker :=
  mkTracker (self_players t) ms (file t) (writes t).

(** The loop of [load_data]: every ["date"] is parsed; [None] stands for the
    [ValueError] of [fromisoformat]. *)
Fixpoint load_matches (stored : list (MatchOf string)) (acc : list Match)
    : option (list Match) :=
  match stored with
  | [] => Some acc
  | m :: rest =>
      match fromisoformat (date m) with
      | Some d => load_matches rest (acc ++ [with_date m d])
      | None => None
      end
  end.

Definition load_data (t : Tracker) : option Tracker :=
  match file t with
  | Some data =>
      match load_matches (data_matches data) [] with
      | Some ms => Some (mkTracker (data_players data) ms (file t) (writes t))
      | None => None
      end
  | None => Some (mkTracker [] [] (file t) (writes t))
  end.

(** [BadmintonTracker(data_file)] on a file of the given content. *)
Definition init (content : option Data) : option Tracker :=
  load_data (mkTracker [] [] content 0%nat).

(** The loop of [save_data]: a copy of every match with its date printed. *)
Fixpoint dump_matches (ms : list Match) (acc : list (MatchOf string))
    : list (MatchOf string) :=
  match ms with
  | [] => acc
  | m :: rest => dump_matches rest (acc ++ [with_date m (isoformat (date m))])
  end.

Definition save_data (t : Tracker) : Tracker :=
  let data := mkData (self_players t) (dump_matches (self_matches t) []) in
  mkTracker (self_players t) (self_matches t) (Some data) (S (writes t)).

Definition new_player : Player := mkPlayer 1500 0%Z 0%Z.

Definition add_player (t : Tracker) (name : string) : Tracker * bool :=
  if negb (Dict.mem (self_players t) name) then
    let t' := set_players t (Dict.set (self_players t) name new_player) in
    (save_data t', true)
  else (t, false).

Definition add_matches (n : Z) (p : Player) : Player :=
  mkPlayer (rating p) (matches p + n)%Z (wins p).

Definition add_wins (n : Z) (p : Player) : Player :=
  mkPlayer (rating p) (matches p) (wins p + n)%Z.

(** [+=] and [-=] on a rating, without rounding; [Binary64.add_rating] and
    [Binary64.sub_rating] are the float operations. *)
Definition add_rating (x : R) (p : Player) : Player :=
  mkPlayer (rating p + x) (matches p) (wins p).

Definition sub_rating (x : R) (p : Player) : Player :=
  mkPlayer (rating p - x) (matches p) (wins p).

(** [for player in names: self.players[player][...] = f(...)]; [None]
    stands for [KeyError]. *)
Fixpoint for_each (names : list string) (f : Player -> Player) (ps : Players)
    : option Players :=
  match names with
  | [] => Some ps
  | player :: rest =>
      match Dict.modify ps player f with
      | Some ps' => for_each rest f ps'
      | None => None
      end
  end.

(** [sum(self.players[p]["rating"] for p in names)], from [acc]. *)
Fixpoint sum_ratings (ps : Players) (names : list string) (acc : R)
    : option R :=
  match names with
  | [] => Some acc
  | p :: rest =>
      match Dict.get ps p with
      | Some pl => sum_ratings ps rest (acc + rating pl)
      | None => None
      end
  end.

Definition K : R := 32.

(** [1 / (1 + 10 ** ((team2_rating - team1_rating) / 400))] as a real
    number: always defined and strictly between 0 and 1.
    [Binary64.expected_team1] is the float, which can be 0 or 1, and the
    [OverflowError] of [10 ** x]. *)
Definition expected_team1 (team1_rating team2_rating : R) : R :=
  1 / (1 + Rpower 10 ((team2_rating - team1_rating) / 400)).

Definition actual_score (team1_won : bool) : R :=
  if team1_won then 1 else 0.

(** The [rating_change] of [update_ratings], from the two team ratings. *)
Definition rating_change_of (team1_rating team2_rating : R)
    (team1_won : bool) : R :=
  K * (actual_score team1_won - expected_team1 team1_rating team2_rating).

(** [team1_rating], [team2_rating] as [update_ratings] computes them. *)
Definition team_rating (ps : Players) (team : list string) : option R :=
  match sum_ratings ps team 0 with
  | Some total => Some (total / 2)
  | None => None
  end.

(** [rating_change] as [update_ratings] computes it on the store. *)
Definition rating_change (ps : Players) (team1 team2 : list string)
    (team1_won : bool) : option R :=
  match team_rating ps team1, team_rating ps team2 with
  | Some team1_rating, Some team2_rating =>
      Some (rating_change_of team1_rating team2_rating team1_won)
  | _, _ => None
  end.

Definition update_ratings (ps : Players) (team1 team2 : list string)
    (team1_won : bool) : option Players :=
  match rating_change ps team1 team2 team1_won with
  | Some change =>
      match for_each team1 (add_rating change) ps with
      | Some ps' => for_each team2 (sub_rating change) ps'
      | None => None
      end
  | None => None
  end.

(** The first loop of [record_match]: players not yet known are added. *)
Fixpoint ensure_players (names : list string) (t : Tracker) : Tracker :=
  match names with
  | [] => t
  | player :: rest =>
      if negb (Dict.mem (self_players t) player)
      then ensure_players rest (fst (add_player t player))
      else ensure_players rest t
  end.

(** [record_match]; [now] is what [datetime.now()] returns. *)
Definition record_match (t : Tracker) (team1 team2 : list string)
    (score1 score2 : Z) (now : datetime) : option Tracker :=
  let t := ensure_players (team1 ++ team2) t in
  let m := mkMatch now team1 team2 score1 score2 in
  let t := set_matches t (self_matches t ++ [m]) in
  let team1_won := (score1 >? score2)%Z in
  match for_each (team1 ++ team2) (add_matches 1%Z) (self_players t) with
  | None => None
  | Some ps =>
      let winning_team := if team1_won then team1 else team2 in
      match for_each winning_team (add_wins 1%Z) ps with
      | None => None
      | Some ps =>
          match update_ratings ps team1 team2 team1_won with
          | None => None
          | Some ps => Some (save_data (set_players t ps))
          end
      end
  end.

End BadmintonTracker.

(* ================================================================== *)
(** * Notions the statements about the tracker use *)

Module TrackerSpec.
Import Datetime BadmintonTracker.

Local Open Scope string_scope.

(** The statistics a player enters a match with: those in the store, or
    those of a newly added player. *)
Definition stats_before (t : Tracker) (p : string) : Player :=
  match Dict.get (self_players t) p with
  | Some pl => pl
  | None => new_player
  end.

(** The sum of all players' ratings. *)
Definition total_rating (ps : Players) : R :=
  fold_right (fun item acc => (rating (snd item) + acc)%R) 0%R ps.

(** The number of places of a team a name fills. *)
Definition slots (team : list string) (p : string) : nat :=
  count_occ string_dec team p.

(** What a match does to the statistics [pl] of the player [p], given the
    rating change of the match: one match and one rating step for every
    place filled, one win for every place filled in the winning team. *)
Definition stats_after (change : R) (team1 team2 : list string)
    (team1_won : bool) (p : string) (pl : Player) : Player :=
  mkPlayer
    (rating pl + INR (slots team1 p) * change - INR (slots team2 p) * change)
    (matches pl + Z.of_nat (slots (team1 ++ team2) p))
    (wins pl + Z.of_nat (slots (if team1_won then team1 else team2) p)).

(** A text [isoformat] prints for some timestamp. *)
Definition printed_timestamp (s : string) : Prop :=
  exists d, valid d = true /\ s = isoformat d.

(** A data record in which every match is dated by such a text, as every
    record [save_data] writes is. *)
Definition printed_dates (data : Data) : Prop :=
  Forall (fun m => printed_timestamp (date m)) (data_matches data).

(** The timestamps held in memory are [datetime] objects, hence in range. *)
Definition valid_dates (t : Tracker) : Prop :=
  Forall (fun m => valid (date m) = true) (self_matches t).

(** The tracker started without a data file, and a timestamp, for the
    examples. *)
Definition fresh : Tracker := mkTracker [] [] None 0.

Definition stamp : datetime := mkDatetime 2024 5 1 18 30 0 0.

(** Four players as [add_player] creates them. *)
Definition four_new : Players :=
  [("A", new_player); ("B", new_player); ("C", new_player); ("D", new_player)].

(** A data record with one match, dated in hours and minutes only. *)
Definition short_dated : Data :=
  mkData four_new [mkMatch "2024-05-01T18:30" ["A"; "B"] ["C"; "D"] 21 15].

(** The same record as [save_data] writes it. *)
Definition full_dated : Data :=
  mkData four_new [mkMatch (isoformat stamp) ["A"; "B"] ["C"; "D"] 21 15].

End TrackerSpec.

(* ================================================================== *)
(** * tournament_pairer.py *)

Module TournamentPairer.

(** The exceptions of the module: the [FileNotFoundError] of [load_data],
    the [ValueError] of the size check of [generate_pairings] (the spec's
    InsufficientPlayers), and the [IndexError] of [list.pop] on an empty list
    or of [team_players[i]] out of range. *)
Inductive error : Type :=
  | FileNotFoundError
  | InsufficientPlayers
  | IndexError.

Inductive result (A : Type) : Type :=
  | Ok (a : A)
  | Raise (e : error).
Arguments Ok {A} a.
Arguments Raise {A} e.

Definition bind {A B} (r : result A) (k : A -> result B) : result B :=
  match r with
  | Ok a => k a
  | Raise e => Raise e
  end.

Notation "x <- r ;; k" := (bind r (fun x => k))
  (at level 61, r at next level, right associativity).
Notation "' p <- r ;; k" := (bind r (fun x => let p := x in k))
  (at level 61, p pattern, r at next level, right associativity).

(** [load_data]: [self.players] from the tracker's data file; the file must
    exist. *)
Definition load_data (content : option BadmintonTracker.Data)
    : result Players :=
  match content with
  | None => Raise FileNotFoundError
  | Some data => Ok (BadmintonTracker.data_players data)
  end.

Definition Team : Type := (string * string)%type.
Definition Pairing : Type := (Team * Team)%type.

Section Sorting.
Variable A : Type.
Variable key : A -> R.

(** [sorted(xs, key=key, reverse=True)]: Python's sort is stable, also
    with [reverse=True], so items with equal keys stay in input order.
    Insertion from the right puts an item in front of every item whose
    key is not strictly greater. *)
Fixpoint insert_desc (x : A) (l : list A) : list A :=
  match l with
  | [] => [x]
  | y :: l' =>
      if Rlt_dec (key x) (key y) then y :: insert_desc x l'
      else x :: y :: l'
  end.

Definition sorted_reverse (l : list A) : list A :=
  fold_right insert_desc [] l.
End Sorting.

Section Pool.
Variable A : Type.

(** [pool.pop(0)] *)
Definition pop_front (pool : list A) : result (A * list A) :=
  match pool with
  | [] => Raise IndexError
  | x :: pool' => Ok (x, pool')
  end.

(** [pool.pop()] *)
Fixpoint pop_back (pool : list A) : result (A * list A) :=
  match pool with
  | [] => Raise IndexError
  | [x] => Ok (x, [])
  | x :: pool' =>
      '(y, rest) <- pop_back pool' ;;
      Ok (y, x :: rest)
  end.

(** One turn of the inner loop: the parity of [len(players_pool)]
    decides the end the player is taken from. *)
Definition pop_player (pool : list A) : result (A * list A) :=
  if Nat.even (List.length pool) then pop_front pool else pop_back pool.
End Pool.

(** [for _ in range(k)]: the inner loop, [team_players] accumulated. *)
Fixpoint select_players (k : nat) (pool : list (string * Player))
    (team_players : list string)
    : result (list string * list (string * Player)) :=
  match k with
  | O => Ok (team_players, pool)
  | S k' =>
      '(player, pool') <- pop_player pool ;;
      select_players k' pool' (team_players ++ [fst player])
  end.

(** [team_players[i]] *)
Definition index (team_players : list string) (i : nat) : result string :=
  match nth_error team_players i with
  | Some p => Ok p
  | None => Raise IndexError
  end.

(** The body of the outer loop for one match. *)
Definition make_match (pool : list (string * Player))
    : result (Pairing * list (string * Player)) :=
  '(team_players, pool') <- select_players 4 pool [] ;;
  p0 <- index team_players 0 ;;
  p3 <- index team_players 3 ;;
  p1 <- index team_players 1 ;;
  p2 <- index team_players 2 ;;
  let team1 := (p0, p3) in
  let team2 := (p1, p2) in
  Ok ((team1, team2), pool').

(** [for _ in range(num_matches)]: the outer loop; the pool that is left
    is returned with the teams. *)
Fixpoint pair_matches (n : nat) (pool : list (string * Player))
    (teams : list Pairing)
    : result (list Pairing * list (string * Player)) :=
  match n with
  | O => Ok (teams, pool)
  | S n' =>
      '(m, pool') <- make_match pool ;;
      pair_matches n' pool' (teams ++ [m])
  end.

Definition rating_key (item : string * Player) : R := rating (snd item).

(** The state of [generate_pairings] when it returns: [teams] and what is
    left of [players_pool]. *)
Definition generate_pairings_pool (players : Players) (num_matches : Z)
    : result (list Pairing * list (string * Player)) :=
  if (Z.of_nat (List.length players) <? num_matches * 4)%Z
  then Raise InsufficientPlayers
  else
    let sorted_players := sorted_reverse rating_key players in
    let players_pool := sorted_players in
    pair_matches (Z.to_nat num_matches) players_pool [].

Definition generate_pairings (players : Players) (num_matches : Z)
    : result (list Pairing) :=
  '(teams, _) <- generate_pairings_pool players num_matches ;;
  Ok teams.

End TournamentPairer.

(* ================================================================== *)
(** * The drawing rule in the words of the specification

    "If the pool length is currently even, pop from the front; if odd, pop
    from the back", four times per match, and the four draws p0..p3 give
    team1 = (p0, p3), team2 = (p1, p2). *)

Module PairingSpec.
Import TournamentPairer.

(** One pop: the item taken and the pool that is left. *)
Inductive parity_pop :
  list (string * Player) -> string * Player -> list (string * Player) -> Prop :=
  | pop_even_front : forall p rest,
      Nat.even (List.length (p :: rest)) = true ->
      parity_pop (p :: rest) p rest
  | pop_odd_back : forall p rest,
      Nat.even (List.length (rest ++ [p])) = false ->
      parity_pop (rest ++ [p]) p rest.

(** One match: four pops, paired as the specification says. *)
Inductive draw_match :
  list (string * Player) -> Pairing -> list (string * Player) -> Prop :=
  | draw_four : forall pool0 pool1 pool2 pool3 pool4 p0 p1 p2 p3,
      parity_pop pool0 p0 pool1 ->
      parity_pop pool1 p1 pool2 ->
      parity_pop pool2 p2 pool3 ->
      parity_pop pool3 p3 pool4 ->
      draw_match pool0 ((fst p0, fst p3), (fst p1, fst p2)) pool4.

(** [n] matches in a row, in match order. *)
Inductive draw_matches :
  nat -> list (string * Player) -> list Pairing -> list (string * Player)
  -> Prop :=
  | draw_none : forall pool, draw_matches 0 pool [] pool
  | draw_next : forall n pool m pool' ms pool'',
      draw_match pool m pool' ->
      draw_matches n pool' ms pool'' ->
      draw_matches (S n) pool (m :: ms) pool''.

(** The items of a given key, for the stability of the sort. *)
Definition has_key (A : Type) (key : A -> R) (v : R) (x : A) : bool :=
  if Req_dec_T (key x) v then true else false.

(** Descending by rating, as [sorted(..., reverse=True)] leaves a list. *)
Definition descending (pool : list (string * Player)) : Prop :=
  Sorted (fun a b => (rating_key b <= rating_key a)%R) pool.

(** The names a list of pairings uses, in draw order p0, p1, p2, p3. *)
Definition pairing_players (m : Pairing) : list string :=
  let '((p0, p3), (p1, p2)) := m in [p0; p1; p2; p3].

Definition drawn_players (teams : list Pairing) : list string :=
  flat_map pairing_players teams.

(** The two teams of a pairing have no player in common. *)
Definition teams_disjoint (m : Pairing) : Prop :=
  let '((a, b), (c, d)) := m in
  a <> c /\ a <> d /\ b <> c /\ b <> d.

(** Eight players in descending order of rating, for the examples. *)
Definition eight : Players :=
  [("P1", mkPlayer 1800 0 0); ("P2", mkPlayer 1700 0 0);
   ("P3", mkPlayer 1600 0 0); ("P4", mkPlayer 1500 0 0);
   ("P5", mkPlayer 1400 0 0); ("P6", mkPlayer 1300 0 0);
   ("P7", mkPlayer 1200 0 0); ("P8", mkPlayer 1100 0 0)]%string.

End PairingSpec.

(* ================================================================== *)
(** * What the menus compute

    The two [main] functions read the keyboard and print; the values they
    print are computed by the expressions below. *)

Module Display.

(** [a / b] on Python integers: the quotient as a number, and
    [ZeroDivisionError] ([None]) when [b] is zero. *)
Definition true_div (a b : Z) : option R :=
  if (b =? 0)%Z then None else Some (IZR a / IZR b)%R.

(** [win_rate = (data["wins"] / data["matches"] * 100)
    if data["matches"] > 0 else 0] *)
Definition win_rate (data : Player) : option R :=
  if (matches data >? 0)%Z then
    match true_div (wins data) (matches data) with
    | Some q => Some (q * 100)%R
    | None => None
    end
  else Some 0%R.

(** [sum([pairer.players[p]["rating"] for p in team]) / 2] of the pairer's
    menu; [None] stands for [KeyError]. *)
Definition team_avg (players : Players) (team : TournamentPairer.Team)
    : option R :=
  match Dict.get players (fst team), Dict.get players (snd team) with
  | Some p0, Some p1 => Some ((0 + rating p0 + rating p1) / 2)%R
  | _, _ => None
  end.

End Display.

(* ================================================================== *)
(** * Invariants of the store *)

Module Invariants.
Import BadmintonTracker TrackerSpec.

(** Every player has at least as many matches as wins, and no negative
    count. *)
Definition counters_ok (ps : Players) : Prop :=
  forall p pl, Dict.get ps p = Some pl -> (0 <= wins pl <= matches pl)%Z.

(** Every player named in a recorded match is in the store. *)
Definition players_known (t : Tracker) : Prop :=
  forall m, In m (self_matches t) ->
  forall p, In p (team1_players m ++ team2_players m) ->
  Dict.mem (self_players t) p = true.

(** A tracker that holds four new players and no match, for the examples. *)
Definition club : Tracker := mkTracker four_new [] None 0.

End Invariants.

(* ================================================================== *)
(** * The pairings by rank *)

Module PairingRanks.
Import TournamentPairer.

(** The name at place [i] (from 0) of a ranking. *)
Definition rank_name (names : list string) (i : nat) : string :=
  nth i names EmptyString.

(** Match [k] (from 0) of a ranking of [L] names.  With [L] even: places
    [2k] and [L-2-2k] against places [L-1-2k] and [2k+1]; with [L] odd the
    two teams change sides. *)
Definition ranked_pairing (names : list string) (k : nat) : Pairing :=
  let L := List.length names in
  let top := rank_name names (2 * k) in
  let second := rank_name names (2 * k + 1) in
  let last := rank_name names (L - 1 - 2 * k) in
  let last_but_one := rank_name names (L - 2 - 2 * k) in
  if Nat.even L then ((top, last_but_one), (last, second))
  else ((last, second), (top, last_but_one)).

(** A ranking without its first [2n] and its last [2n] places. *)
Definition middle (A : Type) (pool : list A) (n : nat) : list A :=
  firstn (List.length pool - 4 * n) (skipn (2 * n) pool).



End PairingRanks.

(* ================================================================== *)
(** * badminton_tracker.py on binary64 floats

    The store and the match recorder once more, with the ratings as CPython
    holds them: binary64 floats, every operation rounded to nearest (ties to
    even), and the exceptions float arithmetic raises. *)

Module Binary64.
Import PrimFloat.

Local Open Scope float_scope.

(** The exceptions the recorder and the rating update can raise. *)
Inductive exception : Type :=
  | KeyError
  | OverflowError
  | ZeroDivisionError.

(** An expression evaluates to a value or raises. *)
Inductive evaluation (A : Type) : Type :=
  | Value (a : A)
  | Raises (e : exception).
Arguments Value {A} a.
Arguments Raises {A} e.

(** A method that mutates [self] returns or raises, and leaves a state
    either way. *)
Inductive execution (S : Type) : Type :=
  | Returned (s : S)
  | Raised (e : exception) (s : S).
Arguments Returned {S} s.
Arguments Raised {S} e s.

Definition state_of (S : Type) (x : execution S) : S :=
  match x with
  | Returned s => s
  | Raised _ s => s
  end.

Definition raised (S : Type) (x : execution S) : option exception :=
  match x with
  | Returned _ => None
  | Raised e _ => Some e
  end.

(** [{"rating": ..., "matches": ..., "wins": ...}] with a float rating (the
    baseline [1500] of a new player is the float of that value, which the
    first [+=] of a rating change makes of it). *)
Record Player : Type := mkPlayer {
  rating : float;
  matches : Z;
  wins : Z
}.

Definition Players : Type := Dict.dict Player.

Record Data : Type := mkData {
  data_players : Players;
  data_matches : list (BadmintonTracker.MatchOf string)
}.

Record Tracker : Type := mkTracker {
  self_players : Players;
  self_matches : list BadmintonTracker.Match;
  file : option Data;
  writes : nat
}.

Definition set_players (t : Tracker) (ps : Players) : Tracker :=
  mkTracker ps (self_matches t) (file t) (writes t).

Definition set_matches (t : Tracker) (ms : list BadmintonTracker.Match)
    : Tracker :=
  mkTracker (self_players t) ms (file t) (writes t).

Definition save_data (t : Tracker) : Tracker :=
  let data := mkData (self_players t)
                (BadmintonTracker.dump_matches (self_matches t) []) in
  mkTracker (self_players t) (self_matches t) (Some data) (S (writes t)).

Definition new_player : Player := mkPlayer 1500 0%Z 0%Z.

Definition add_player (t : Tracker) (name : string) : Tracker * bool :=
  if negb (Dict.mem (self_players t) name) then
    let t' := set_players t (Dict.set (self_players t) name new_player) in
    (save_data t', true)
  else (t, false).

Definition add_matches (n : Z) (p : Player) : Player :=
  mkPlayer (rating p) (matches p + n)%Z (wins p).

Definition add_wins (n : Z) (p : Player) : Player :=
  mkPlayer (rating p) (matches p) (wins p + n)%Z.

(** [self.players[player]["rating"] += rating_change] *)
Definition add_rating (x : float) (p : Player) : Player :=
  mkPlayer (rating p + x) (matches p) (wins p).

(** [self.players[player]["rating"] -= rating_change] *)
Definition sub_rating (x : float) (p : Player) : Player :=
  mkPlayer (rating p - x) (matches p) (wins p).

(** [for player in names: self.players[player][...] = f(...)]; a name the
    store does not have stops the loop with [KeyError], the entries written
    so far staying written. *)
Fixpoint for_each (names : list string) (f : Player -> Player) (ps : Players)
    : execution Players :=
  match names with
  | [] => Returned ps
  | player :: rest =>
      match Dict.modify ps player f with
      | Some ps' => for_each rest f ps'
      | None => Raised KeyError ps
      end
  end.

(** [sum(self.players[p]["rating"] for p in names)], from [acc]: the
    additions one after the other (for the two members of a team this is
    also the value of the compensated sum of CPython 3.12). *)
Fixpoint sum_ratings (ps : Players) (names : list string) (acc : float)
    : evaluation float :=
  match names with
  | [] => Value acc
  | p :: rest =>
      match Dict.get ps p with
      | Some pl => sum_ratings ps rest (acc + rating pl)
      | None => Raises KeyError
      end
  end.

Definition team_rating (ps : Players) (team : list string)
    : evaluation float :=
  match sum_ratings ps team 0 with
  | Value total => Value (total / 2)
  | Raises e => Raises e
  end.

(** [a / b] on floats: [ZeroDivisionError] when [b] is zero. *)
Definition truediv (a b : float) : evaluation float :=
  if b =? 0 then Raises ZeroDivisionError else Value (a / b).

Definition K : float := 32.

Definition actual_score (team1_won : bool) : float :=
  if team1_won then 1 else 0.

(** The [pow] of the C library, which CPython calls and Rocq does not
    have: its result, and whether it reported a range error ([errno] set to
    [ERANGE]). *)
Definition libm_pow : Type := float -> float -> float * bool.

Section Libm.

(** Nothing is assumed of the [pow] of the platform. *)
Variable pow : libm_pow.

(** [10 ** iw], that is [float_pow] of CPython at the base [10.0]: the
    exponents zero, NaN and infinite are answered without [pow]; after
    [pow], an infinite result, or a range error with a result that is not
    zero, raises [OverflowError]. *)
Definition ten_to_the (iw : float) : evaluation float :=
  if iw =? 0 then Value 1
  else if is_nan iw then Value iw
  else if is_infinity iw then Value (if 0 <? iw then abs iw else 0)
  else
    let (ix, erange) := pow 10 iw in
    let erange := if erange then negb (ix =? 0) else is_infinity ix in
    if erange then Raises OverflowError else Value ix.

(** [1 / (1 + 10 ** ((team2_rating - team1_rating) / 400))] *)
Definition expected_team1 (team1_rating team2_rating : float)
    : evaluation float :=
  match ten_to_the ((team2_rating - team1_rating) / 400) with
  | Value power => truediv 1 (1 + power)
  | Raises e => Raises e
  end.

(** [K * (actual_score - expected_team1)] *)
Definition rating_change_of (team1_rating team2_rating : float)
    (team1_won : bool) : evaluation float :=
  match expected_team1 team1_rating team2_rating with
  | Value expected => Value (K * (actual_score team1_won - expected))
  | Raises e => Raises e
  end.

(** [rating_change] as [update_ratings] computes it on the store: team 1 is
    read first. *)
Definition rating_change (ps : Players) (team1 team2 : list string)
    (team1_won : bool) : evaluation float :=
  match team_rating ps team1 with
  | Value team1_rating =>
      match team_rating ps team2 with
      | Value team2_rating =>
          rating_change_of team1_rating team2_rating team1_won
      | Raises e => Raises e
      end
  | Raises e => Raises e
  end.

Definition update_ratings (ps : Players) (team1 team2 : list string)
    (team1_won : bool) : execution Players :=
  match rating_change ps team1 team2 team1_won with
  | Value change =>
      match for_each team1 (add_rating change) ps with
      | Returned ps' => for_each team2 (sub_rating change) ps'
      | Raised e ps' => Raised e ps'
      end
  | Raises e => Raised e ps
  end.

(** The first loop of [record_match]: players not yet known are added. *)
Fixpoint ensure_players (names : list string) (t : Tracker) : Tracker :=
  match names with
  | [] => t
  | player :: rest =>
      if negb (Dict.mem (self_players t) player)
      then ensure_players rest (fst (add_player t player))
      else ensure_players rest t
  end.

(** [record_match]; [now] is what [datetime.now()] returns.  An exception
    leaves [self] as it is at that point, and the file as the last
    [save_data] wrote it. *)
Definition record_match (t : Tracker) (team1 team2 : list string)
    (score1 score2 : Z) (now : Datetime.datetime) : execution Tracker :=
  let t := ensure_players (team1 ++ team2) t in
  let m := BadmintonTracker.mkMatch now team1 team2 score1 score2 in
  let t := set_matches t (self_matches t ++ [m]) in
  let team1_won := (score1 >? score2)%Z in
  match for_each (team1 ++ team2) (add_matches 1%Z) (self_players t) with
  | Raised e ps => Raised e (set_players t ps)
  | Returned ps =>
      let winning_team := if team1_won then team1 else team2 in
      match for_each winning_team (add_wins 1%Z) ps with
      | Raised e ps => Raised e (set_players t ps)
      | Returned ps =>
          match update_ratings ps team1 team2 team1_won with
          | Raised e ps => Raised e (set_players t ps)
          | Returned ps => Returned (save_data (set_players t ps))
          end
      end
  end.

(** What the "Record Match" entry of the menu ends with: one of its three
    refusals, the match recorded, or an exception it does not catch, which
    ends [main]. *)
Inductive record_outcome : Type :=
  | NotEnoughPlayers
  | PlayersNotFound
  | InvalidScores
  | MatchRecorded (t : Tracker)
  | Uncaught (e : exception) (t : Tracker).

(** The "Record Match" entry of [main].  What is typed is given as
    arguments: the four names as [strip()] leaves them, and each score as
    the integer [int()] reads, or [None] when [int()] raises [ValueError];
    what is printed is the outcome.  The [except ValueError] of the entry
    catches none of the exceptions of [record_match]. *)
Definition menu_record_match (tracker : Tracker)
    (player1 player2 player3 player4 : string) (score1 score2 : option Z)
    (now : Datetime.datetime) : record_outcome :=
  let players := self_players tracker in
  if (List.length players <? 4)%nat then NotEnoughPlayers
  else if forallb (Dict.mem players) [player1; player2; player3; player4]
  then
    match score1, score2 with
    | Some score1, Some score2 =>
        match record_match tracker [player1; player2] [player3; player4]
                score1 score2 now with
        | Returned tracker' => MatchRecorded tracker'
        | Raised e tracker' => Uncaught e tracker'
        end
    | _, _ => InvalidScores
    end
  else PlayersNotFound.

End Libm.

End Binary64.

(* ================================================================== *)
(** * Vocabulary of the statements about the binary64 store *)

Module Binary64Spec.
Import PrimFloat FloatOps SpecFloat Binary64.

Local Open Scope string_scope.
Local Open Scope float_scope.

(** The statistics a player enters a match with: those in the store, or
    those of a newly added player. *)
Definition stats_before (t : Tracker) (p : string) : Player :=
  match Dict.get (self_players t) p with
  | Some pl => pl
  | None => new_player
  end.

(** What the two counting loops of [record_match] make of the statistics
    [pl] of the player [p]: one match for every place filled, one win for
    every place filled in the winning team. *)
Definition counted (team1 team2 : list string) (team1_won : bool)
    (p : string) (pl : Player) : Player :=
  mkPlayer (rating pl)
    (matches pl + Z.of_nat (TrackerSpec.slots (team1 ++ team2) p))
    (wins pl
     + Z.of_nat (TrackerSpec.slots (if team1_won then team1 else team2) p)).

(** What the two loops of [update_ratings] make of the rating [r] of the
    player [p]: [+= change] for every place filled in team 1, then
    [-= change] for every place filled in team 2. *)
Definition moved (change : float) (team1 team2 : list string) (p : string)
    (r : float) : float :=
  Nat.iter (TrackerSpec.slots team2 p) (fun r => r - change)
    (Nat.iter (TrackerSpec.slots team1 p) (fun r => r + change) r).

(** What a recorded match makes of the statistics [pl] of the player [p],
    given the rating change of the match. *)
Definition stats_after (change : float) (team1 team2 : list string)
    (team1_won : bool) (p : string) (pl : Player) : Player :=
  mkPlayer (moved change team1 team2 p (rating pl))
    (matches (counted team1 team2 team1_won p pl))
    (wins (counted team1 team2 team1_won p pl)).

(** The number a finite float stands for, counted in units of [2^-1074],
    the smallest positive float: every finite float is a whole number of
    them.  Infinities and NaN stand for no number. *)
Definition units (x : float) : option Z :=
  match Prim2SF x with
  | S754_zero _ => Some 0%Z
  | S754_finite s m e => Some (cond_Zopp s (Zpos m) * 2 ^ (e + 1074))%Z
  | S754_infinity _ => None
  | S754_nan => None
  end.

Definition finite (x : float) : Prop := units x <> None.

Definition plus_units (u v : option Z) : option Z :=
  match u, v with
  | Some u, Some v => Some (u + v)%Z
  | _, _ => None
  end.

(** The float sum, or difference, of [x] and [y] is their sum, or
    difference, as numbers: it was not rounded. *)
Definition exact_add (x y : float) : Prop :=
  units (x + y) = plus_units (units x) (units y).

Definition exact_sub (x y : float) : Prop :=
  units (x - y) = plus_units (units x) (option_map Z.opp (units y)).

(** The sum of all the ratings of a store, as a number. *)
Definition total_units (ps : Players) : option Z :=
  fold_right (fun item acc => plus_units (units (rating (snd item))) acc)
             (Some 0%Z) ps.

(** The tracker started without a data file. *)
Definition fresh : Tracker := mkTracker [] [] None 0.

(** Four players rated 2047.3 (the float nearest to it), with no match. *)
Definition at_2047_3 : Player := mkPlayer 0x1.ffd3333333333p+10 0 0.

Definition four_at_2047_3 : Players :=
  [("A", at_2047_3); ("B", at_2047_3); ("C", at_2047_3); ("D", at_2047_3)].

(** A tracker that holds four new players and no match. *)
Definition club : Tracker :=
  mkTracker [("A", new_player); ("B", new_player);
             ("C", new_player); ("D", new_player)] [] None 0.

(** A tracker whose players A and B are rated 0, and C and D are rated
    200000: the exponent of [10 ** x] for A and B against C and D is 500. *)
Definition lopsided : Tracker :=
  mkTracker [("A", mkPlayer 0 0 0); ("B", mkPlayer 0 0 0);
             ("C", mkPlayer 200000 0 0); ("D", mkPlayer 200000 0 0)]
            [] None 0.

End Binary64Spec.

(* ================================================================== *)
(** * Facts about dictionaries *)

Module DictFacts.

(** A list of different string constants has no repetition. *)
Ltac distinct_names := repeat constructor; simpl; intuition discriminate.

Section DictFacts.
Variable V : Type.
Implicit Types (d : Dict.dict V) (k : string) (v : V).

Lemma get_set_same d k v : Dict.get (Dict.set d k v) k = Some v.
Proof.
  induction d as [|[k' v'] d IH]; simpl.
  - now rewrite String.eqb_refl.
  - destruct (String.eqb k' k) eqn:E; simpl; rewrite E; auto.
Qed.

Lemma get_set_other d k k' v :
  k <> k' -> Dict.get (Dict.set d k v) k' = Dict.get d k'.
Proof.
  intros Hne. induction d as [|[k0 v0] d IH]; simpl.
  - apply String.eqb_neq in Hne. now rewrite Hne.
  - destruct (String.eqb k0 k) eqn:E; simpl.
    + apply String.eqb_eq in E. subst k0.
      apply String.eqb_neq in Hne. now rewrite Hne.
    + now rewrite IH.
Qed.

Lemma mem_true_iff d k :
  Dict.mem d k = true <-> exists v, Dict.get d k = Some v.
Proof.
  unfold Dict.mem. destruct (Dict.get d k) as [v|]; split.
  - eauto.
  - reflexivity.
  - discriminate.
  - intros [v H]. discriminate.
Qed.

Lemma mem_false_iff d k : Dict.mem d k = false <-> Dict.get d k = None.
Proof.
  unfold Dict.mem. destruct (Dict.get d k); split; congruence.
Qed.

Lemma mem_set_same d k v : Dict.mem (Dict.set d k v) k = true.
Proof. unfold Dict.mem. now rewrite get_set_same. Qed.

Lemma mem_set d k k' v :
  Dict.mem d k' = true -> Dict.mem (Dict.set d k v) k' = true.
Proof.
  destruct (string_dec k k') as [->|Hne].
  - intros _. apply mem_set_same.
  - unfold Dict.mem. now rewrite get_set_other.
Qed.

(** Assigning to a key the dictionary has keeps its keys as they are. *)
Lemma keys_set_present d k v :
  Dict.mem d k = true -> Dict.keys (Dict.set d k v) = Dict.keys d.
Proof.
  unfold Dict.mem, Dict.keys.
  induction d as [|[k' v'] d IH]; simpl; [discriminate|].
  destruct (String.eqb k' k) eqn:E; simpl; [reflexivity|].
  intros H. now rewrite IH.
Qed.

(** Assigning to a new key puts it last. *)
Lemma keys_set_absent d k v :
  Dict.mem d k = false -> Dict.keys (Dict.set d k v) = Dict.keys d ++ [k].
Proof.
  unfold Dict.mem, Dict.keys.
  induction d as [|[k' v'] d IH]; simpl; [reflexivity|].
  destruct (String.eqb k' k) eqn:E; simpl; [discriminate|].
  intros H. now rewrite IH.
Qed.

Lemma get_modify d d' k k' (f : V -> V) :
  Dict.modify d k f = Some d' ->
  Dict.get d' k' =
    if string_dec k k' then option_map f (Dict.get d k') else Dict.get d k'.
Proof.
  unfold Dict.modify. destruct (Dict.get d k) as [v|] eqn:E; [|discriminate].
  intros H; inversion H; subst d'; clear H.
  destruct (string_dec k k') as [<-|Hne].
  - now rewrite get_set_same, E.
  - now apply get_set_other.
Qed.

Lemma modify_some d k (f : V -> V) :
  Dict.mem d k = true -> exists d', Dict.modify d k f = Some d'.
Proof.
  unfold Dict.mem, Dict.modify. destruct (Dict.get d k); [eauto|discriminate].
Qed.

End DictFacts.
End DictFacts.

(* ================================================================== *)
(** * Facts about timestamps *)

Module DatetimeFacts.
Import Datetime.

Local Open Scope N_scope.

Lemma digit_value_digit (n : N) : n < 10 -> digit_value (digit n) = Some n.
Proof.
  intros H. destruct n as [|p]; [reflexivity|].
  do 4 (try destruct p as [p|p|]); try reflexivity; lia.
Qed.

(** Reading [j + k] digits is reading [j] and then [k]. *)
Lemma digits_add (j k : nat) : forall (acc : N) (s : string),
  digits (j + k) acc s =
    match digits j acc s with
    | Some (v, s') => digits k v s'
    | None => None
    end.
Proof.
  induction j as [|j IH]; intros acc s; simpl; [reflexivity|].
  destruct s as [|c s]; [reflexivity|].
  destruct (digit_value c); [apply IH|reflexivity].
Qed.

Lemma digits_pad2 (n acc : N) (rest : string) :
  n < 100 -> digits 2 acc (pad2 n rest) = Some (100 * acc + n, rest).
Proof.
  intros H. unfold pad2. cbn [digits].
  rewrite !digit_value_digit.
  - do 2 f_equal. pose proof (N.div_mod n 10). lia.
  - apply N.mod_lt. lia.
  - apply N.Div0.div_lt_upper_bound. lia.
Qed.

Lemma digits_pad4 (n acc : N) (rest : string) :
  n < 10000 -> digits 4 acc (pad4 n rest) = Some (10000 * acc + n, rest).
Proof.
  intros H. unfold pad4. change 4%nat with (2 + 2)%nat.
  rewrite digits_add, digits_pad2, digits_pad2.
  - do 2 f_equal. pose proof (N.div_mod n 100). lia.
  - apply N.mod_lt. lia.
  - apply N.Div0.div_lt_upper_bound. lia.
Qed.

Lemma digits_pad6 (n acc : N) (rest : string) :
  n < 1000000 -> digits 6 acc (pad6 n rest) = Some (1000000 * acc + n, rest).
Proof.
  intros H. unfold pad6. change 6%nat with (2 + 4)%nat.
  rewrite digits_add, digits_pad2, digits_pad4.
  - do 2 f_equal. pose proof (N.div_mod n 10000). lia.
  - apply N.mod_lt. lia.
  - apply N.Div0.div_lt_upper_bound. lia.
Qed.

Lemma days_in_month_le (y m : N) : days_in_month y m <= 31.
Proof.
  unfold days_in_month.
  repeat match goal with
  | |- context [match ?x with _ => _ end] => destruct x
  end; lia.
Qed.

(** The ranges of a timestamp in range. *)
Lemma valid_bounds (d : datetime) :
  valid d = true ->
  year d < 10000 /\ month d < 100 /\ day d < 100 /\ hour d < 100
  /\ minute d < 100 /\ second d < 100 /\ microsecond d < 1000000.
Proof.
  unfold valid. rewrite !andb_true_iff, !N.leb_le, !N.ltb_lt.
  pose proof (days_in_month_le (year d) (month d)). lia.
Qed.

Lemma expect_head (c : ascii) (rest : string) :
  expect c (String c rest) = Some rest.
Proof. unfold expect. now rewrite Ascii.eqb_refl. Qed.

Lemma parse_date_printed (y m d : N) (rest : string) :
  y < 10000 -> m < 100 -> d < 100 ->
  parse_date (pad4 y (String "-" (pad2 m (String "-" (pad2 d rest)))))
  = Some (y, m, d, rest).
Proof.
  intros Hy Hm Hd. unfold parse_date.
  rewrite (digits_pad4 _ _ Hy), expect_head.
  rewrite (digits_pad2 _ _ Hm), expect_head.
  rewrite (digits_pad2 _ _ Hd).
  rewrite !N.mul_0_r, !N.add_0_l. reflexivity.
Qed.

Lemma parse_fraction_printed (us : N) :
  us < 1000000 ->
  parse_fraction (if us =? 0 then EmptyString
                  else String "." (pad6 us EmptyString)) = Some us.
Proof.
  intros H. destruct (N.eqb_spec us 0) as [->|Hne]; [reflexivity|].
  unfold parse_fraction. rewrite Ascii.eqb_refl.
  change (String.length (pad6 us EmptyString)) with 6%nat. cbv iota.
  rewrite (digits_pad6 _ _ H), N.mul_0_r, N.add_0_l. reflexivity.
Qed.

Lemma parse_time_printed (hh mm ss us : N) :
  hh < 100 -> mm < 100 -> ss < 100 -> us < 1000000 ->
  parse_time
    (pad2 hh (String ":" (pad2 mm (String ":" (pad2 ss
       (if us =? 0 then EmptyString
        else String "." (pad6 us EmptyString)))))))
  = Some (hh, mm, ss, us).
Proof.
  intros Hh Hm Hs Hu. unfold parse_time.
  rewrite (digits_pad2 _ _ Hh), expect_head.
  rewrite (digits_pad2 _ _ Hm), expect_head.
  rewrite (digits_pad2 _ _ Hs).
  rewrite (parse_fraction_printed Hu).
  rewrite !N.mul_0_r, !N.add_0_l. reflexivity.
Qed.

(** Reading what [isoformat] printed gives the timestamp back. *)
Lemma fromisoformat_isoformat (d : datetime) :
  valid d = true -> fromisoformat (isoformat d) = Some d.
Proof.
  intros Hv.
  destruct (valid_bounds d Hv) as (Hy & Hm & Hd & Hh & Hmi & Hs & Hu).
  unfold fromisoformat, isoformat.
  rewrite (parse_date_printed _ Hy Hm Hd).
  rewrite (parse_time_printed Hh Hmi Hs Hu).
  unfold checked. destruct d; simpl in *. now rewrite Hv.
Qed.

End DatetimeFacts.

(* ================================================================== *)
(** * Facts about the tracker *)

Module TrackerFacts.
Import Datetime BadmintonTracker TrackerSpec DictFacts.

Local Open Scope R_scope.

(** ** The loops over player names *)

Lemma for_each_some (f : Player -> Player) (names : list string) :
  forall ps : Players,
  (forall p, In p names -> Dict.mem ps p = true) ->
  exists ps', for_each names f ps = Some ps'.
Proof.
  induction names as [|q names IH]; intros ps Hin; simpl.
  - eauto.
  - destruct (@modify_some _ ps q f) as [ps1 E]; [apply Hin; now left|].
    rewrite E. apply IH. intros p Hp.
    unfold Dict.modify in E. destruct (Dict.get ps q); [|discriminate].
    inversion E; subst. apply mem_set, Hin. now right.
Qed.

(** A name listed [n] times has [f] applied [n] times to its entry. *)
Lemma for_each_get (f : Player -> Player) (names : list string) :
  forall (ps ps' : Players), for_each names f ps = Some ps' ->
  forall p, Dict.get ps' p =
    option_map (Nat.iter (count_occ string_dec names p) f) (Dict.get ps p).
Proof.
  induction names as [|q names IH]; intros ps ps' H p; cbn [for_each] in H.
  - inversion H; subst. now destruct (Dict.get ps' p).
  - destruct (Dict.modify ps q f) as [ps1|] eqn:E; [|discriminate].
    rewrite (IH _ _ H p), (@get_modify _ ps ps1 q p f E).
    cbn [count_occ].
    destruct (string_dec q p) as [->|Hne]; [|reflexivity].
    destruct (Dict.get ps p); cbn [option_map]; [|reflexivity].
    now rewrite Nat.iter_succ_r.
Qed.

Lemma for_each_keys (f : Player -> Player) (names : list string) :
  forall (ps ps' : Players), for_each names f ps = Some ps' ->
  Dict.keys ps' = Dict.keys ps.
Proof.
  induction names as [|q names IH]; intros ps ps' H; simpl in *.
  - now inversion H.
  - destruct (Dict.modify ps q f) as [ps1|] eqn:E; [|discriminate].
    rewrite (IH _ _ H). unfold Dict.modify in E.
    destruct (Dict.get ps q) eqn:G; [|discriminate]. inversion E; subst.
    apply keys_set_present. unfold Dict.mem. now rewrite G.
Qed.

Lemma for_each_mem (f : Player -> Player) (names : list string)
    (ps ps' : Players) (p : string) :
  for_each names f ps = Some ps' -> Dict.mem ps' p = Dict.mem ps p.
Proof.
  intros H. unfold Dict.mem. rewrite (@for_each_get f names ps ps' H p).
  now destruct (Dict.get ps p).
Qed.

Lemma iter_add_matches (n : nat) (pl : Player) :
  Nat.iter n (add_matches 1) pl = add_matches (Z.of_nat n) pl.
Proof.
  induction n as [|n IH].
  - destruct pl; unfold add_matches; simpl. f_equal. lia.
  - rewrite Nat.iter_succ, IH. unfold add_matches; simpl. f_equal. lia.
Qed.

Lemma iter_add_wins (n : nat) (pl : Player) :
  Nat.iter n (add_wins 1) pl = add_wins (Z.of_nat n) pl.
Proof.
  induction n as [|n IH].
  - destruct pl; unfold add_wins; simpl. f_equal. lia.
  - rewrite Nat.iter_succ, IH. unfold add_wins; simpl. f_equal. lia.
Qed.

Lemma iter_add_rating (x : R) (n : nat) (pl : Player) :
  Nat.iter n (add_rating x) pl = add_rating (INR n * x) pl.
Proof.
  induction n as [|n IH].
  - destruct pl; unfold add_rating; simpl. f_equal. lra.
  - rewrite Nat.iter_succ, IH, S_INR. unfold add_rating; simpl. f_equal. lra.
Qed.

Lemma iter_sub_rating (x : R) (n : nat) (pl : Player) :
  Nat.iter n (sub_rating x) pl = sub_rating (INR n * x) pl.
Proof.
  induction n as [|n IH].
  - destruct pl; unfold sub_rating; simpl. f_equal. lra.
  - rewrite Nat.iter_succ, IH, S_INR. unfold sub_rating; simpl. f_equal. lra.
Qed.

(** ** The sum of all ratings *)

Lemma total_rating_set (ps : Players) (k : string) (old v : Player) :
  Dict.get ps k = Some old ->
  total_rating (Dict.set ps k v) = total_rating ps - rating old + rating v.
Proof.
  induction ps as [|[k' v'] ps IH]; simpl; [discriminate|].
  destruct (String.eqb k' k) eqn:E; simpl.
  - intros H; inversion H; subst. lra.
  - intros H. rewrite (IH H). lra.
Qed.

Lemma total_rating_set_new (ps : Players) (k : string) (v : Player) :
  Dict.get ps k = None ->
  total_rating (Dict.set ps k v) = total_rating ps + rating v.
Proof.
  induction ps as [|[k' v'] ps IH]; simpl.
  - intros _. lra.
  - destruct (String.eqb k' k) eqn:E; simpl; [discriminate|].
    intros H. rewrite (IH H). lra.
Qed.

(** A loop that moves each rating it touches by [g] moves the sum by [g]
    for every name in the list. *)
Lemma total_rating_for_each (f : Player -> Player) (g : R)
    (names : list string) :
  (forall pl, rating (f pl) = rating pl + g) ->
  forall (ps ps' : Players), for_each names f ps = Some ps' ->
  total_rating ps' = total_rating ps + INR (List.length names) * g.
Proof.
  intros Hf. induction names as [|q names IH]; intros ps ps' H.
  - simpl in *. inversion H; subst. lra.
  - cbn [for_each] in H. unfold Dict.modify in H.
    destruct (Dict.get ps q) as [old|] eqn:G; [|discriminate].
    rewrite (IH _ _ H), (@total_rating_set ps q old (f old) G), Hf.
    change (List.length (q :: names)) with (S (List.length names)).
    rewrite S_INR. lra.
Qed.

(** ** The team ratings *)

Lemma sum_ratings_ext (ps ps' : Players) (names : list string) :
  (forall p, In p names ->
     option_map rating (Dict.get ps p) = option_map rating (Dict.get ps' p)) ->
  forall acc, sum_ratings ps names acc = sum_ratings ps' names acc.
Proof.
  induction names as [|q names IH]; intros Hext acc; simpl; [reflexivity|].
  assert (Hq := Hext q (or_introl eq_refl)).
  destruct (Dict.get ps q) as [a|], (Dict.get ps' q) as [b|];
    simpl in Hq; try discriminate; [|reflexivity].
  inversion Hq as [Hr]. rewrite Hr. apply IH.
  intros p Hp. apply Hext. now right.
Qed.

Lemma sum_ratings_some (ps : Players) (names : list string) :
  (forall p, In p names -> Dict.mem ps p = true) ->
  forall acc, exists total, sum_ratings ps names acc = Some total.
Proof.
  induction names as [|q names IH]; intros Hin acc; simpl; [eauto|].
  assert (Hq := Hin q (or_introl eq_refl)).
  apply mem_true_iff in Hq. destruct Hq as [v ->].
  apply IH. intros p Hp. apply Hin. now right.
Qed.

Lemma rating_change_ext (ps ps' : Players) (team1 team2 : list string)
    (won : bool) :
  (forall p, option_map rating (Dict.get ps p)
             = option_map rating (Dict.get ps' p)) ->
  rating_change ps team1 team2 won = rating_change ps' team1 team2 won.
Proof.
  intros Hext. unfold rating_change, team_rating.
  rewrite (@sum_ratings_ext ps ps' team1), (@sum_ratings_ext ps ps' team2);
    auto.
Qed.

Lemma rating_change_some (ps : Players) (team1 team2 : list string)
    (won : bool) :
  (forall p, In p (team1 ++ team2) -> Dict.mem ps p = true) ->
  exists change, rating_change ps team1 team2 won = Some change.
Proof.
  intros Hin. unfold rating_change, team_rating.
  destruct (@sum_ratings_some ps team1) with (acc := 0) as [s1 ->].
  { intros p Hp. apply Hin, in_or_app. now left. }
  destruct (@sum_ratings_some ps team2) with (acc := 0) as [s2 ->].
  { intros p Hp. apply Hin, in_or_app. now right. }
  eauto.
Qed.

(** ** The rating update *)

Lemma update_ratings_spec (ps : Players) (team1 team2 : list string)
    (won : bool) :
  (forall p, In p (team1 ++ team2) -> Dict.mem ps p = true) ->
  exists change ps',
    rating_change ps team1 team2 won = Some change
    /\ update_ratings ps team1 team2 won = Some ps'
    /\ (forall p, Dict.get ps' p =
          option_map
            (fun pl => sub_rating (INR (slots team2 p) * change)
                         (add_rating (INR (slots team1 p) * change) pl))
            (Dict.get ps p))
    /\ total_rating ps' =
         total_rating ps
         + (INR (List.length team1) - INR (List.length team2)) * change
    /\ Dict.keys ps' = Dict.keys ps.
Proof.
  intros Hin.
  destruct (@rating_change_some ps team1 team2 won Hin) as [change Ec].
  destruct (@for_each_some (add_rating change) team1 ps) as [ps1 E1].
  { intros p Hp. apply Hin, in_or_app. now left. }
  destruct (@for_each_some (sub_rating change) team2 ps1) as [ps2 E2].
  { intros p Hp. rewrite (for_each_mem _ _ _ p E1).
    apply Hin, in_or_app. now right. }
  exists change, ps2. split; [exact Ec|]. split; [|split; [|split]].
  - unfold update_ratings. now rewrite Ec, E1.
  - intros p. rewrite (for_each_get _ _ _ E2 p), (for_each_get _ _ _ E1 p).
    unfold slots. destruct (Dict.get ps p); simpl; [|reflexivity].
    now rewrite iter_add_rating, iter_sub_rating.
  - rewrite (@total_rating_for_each (sub_rating change) (- change) team2
               (fun pl => eq_refl) _ _ E2).
    rewrite (@total_rating_for_each (add_rating change) change team1
               (fun pl => eq_refl) _ _ E1).
    lra.
  - now rewrite (for_each_keys _ _ _ E2), (for_each_keys _ _ _ E1).
Qed.

(** ** Adding the players of a match *)

Lemma add_player_new (t : Tracker) (name : string) :
  Dict.mem (self_players t) name = false ->
  add_player t name =
    (save_data (set_players t (Dict.set (self_players t) name new_player)),
     true).
Proof. intros H. unfold add_player. now rewrite H. Qed.

Lemma add_player_known (t : Tracker) (name : string) :
  Dict.mem (self_players t) name = true -> add_player t name = (t, false).
Proof. intros H. unfold add_player. now rewrite H. Qed.

Lemma ensure_players_get (names : list string) : forall (t : Tracker) p,
  Dict.get (self_players (ensure_players names t)) p =
    match Dict.get (self_players t) p with
    | Some pl => Some pl
    | None => if in_dec string_dec p names then Some new_player else None
    end.
Proof.
  induction names as [|q names IH]; intros t p; cbn [ensure_players].
  - destruct (Dict.get (self_players t) p); [reflexivity|].
    now destruct (in_dec string_dec p []).
  - destruct (Dict.mem (self_players t) q) eqn:M; cbn [negb].
    + rewrite IH. destruct (Dict.get (self_players t) p) eqn:G; [reflexivity|].
      assert (q <> p).
      { intros ->. apply mem_true_iff in M. destruct M. congruence. }
      destruct (in_dec string_dec p names) as [i|n],
               (in_dec string_dec p (q :: names)) as [i'|n'];
        try reflexivity; exfalso.
      * apply n'. now right.
      * destruct i'; [congruence|contradiction].
    + rewrite IH, (add_player_new _ _ M). cbn [fst save_data self_players
        set_players].
      destruct (string_dec q p) as [->|Hne].
      * rewrite get_set_same. apply mem_false_iff in M. rewrite M.
        destruct (in_dec string_dec p (p :: names)) as [|n];
          [reflexivity|]. exfalso. apply n. now left.
      * rewrite (get_set_other _ _ Hne).
        destruct (Dict.get (self_players t) p); [reflexivity|].
        destruct (in_dec string_dec p names) as [i|n],
                 (in_dec string_dec p (q :: names)) as [i'|n'];
          try reflexivity; exfalso.
        -- apply n'. now right.
        -- destruct i'; [congruence|contradiction].
Qed.

Lemma ensure_players_stats (names : list string) (t : Tracker) (p : string) :
  In p names ->
  Dict.get (self_players (ensure_players names t)) p = Some (stats_before t p).
Proof.
  intros Hin. rewrite ensure_players_get. unfold stats_before.
  destruct (Dict.get (self_players t) p); [reflexivity|].
  destruct (in_dec string_dec p names); [reflexivity|contradiction].
Qed.

Lemma ensure_players_mem (names : list string) (t : Tracker) (p : string) :
  In p names -> Dict.mem (self_players (ensure_players names t)) p = true.
Proof.
  intros Hin. unfold Dict.mem. now rewrite (ensure_players_stats _ _ _ Hin).
Qed.

Lemma ensure_players_matches (names : list string) : forall t : Tracker,
  self_matches (ensure_players names t) = self_matches t.
Proof.
  induction names as [|q names IH]; intros t; cbn [ensure_players];
    [reflexivity|].
  destruct (Dict.mem (self_players t) q) eqn:M; cbn [negb]; rewrite IH;
    [reflexivity|].
  now rewrite (add_player_new _ _ M).
Qed.

(** ** Recording a match *)

(** [record_match] returns (no [KeyError]); the statistics of every player
    change as [stats_after] says, from the store with the players of the
    match added; the sum of the ratings moves by the rating change times the
    difference of the team sizes; the match is appended, the store is
    written once more and no name is added beyond the players of the
    match. *)
Lemma record_match_spec (t : Tracker) (team1 team2 : list string)
    (score1 score2 : Z) (now : datetime) :
  let t0 := ensure_players (team1 ++ team2) t in
  let won := (score1 >? score2)%Z in
  exists change t',
    record_match t team1 team2 score1 score2 now = Some t'
    /\ rating_change (self_players t0) team1 team2 won = Some change
    /\ (forall p, Dict.get (self_players t') p =
          option_map (stats_after change team1 team2 won p)
                     (Dict.get (self_players t0) p))
    /\ total_rating (self_players t') =
         total_rating (self_players t0)
         + (INR (List.length team1) - INR (List.length team2)) * change
    /\ self_matches t' =
         self_matches t ++ [mkMatch now team1 team2 score1 score2]
    /\ file t' =
         Some (mkData (self_players t') (dump_matches (self_matches t') []))
    /\ Dict.keys (self_players t') = Dict.keys (self_players t0)
    /\ writes t' = S (writes t0).
Proof.
  intros t0 won.
  assert (Hin : forall p, In p (team1 ++ team2) ->
                          Dict.mem (self_players t0) p = true).
  { intros p Hp. now apply ensure_players_mem. }
  destruct (@for_each_some (add_matches 1) (team1 ++ team2) (self_players t0)
              Hin) as [ps1 E1].
  destruct (@for_each_some (add_wins 1) (if won then team1 else team2) ps1)
    as [ps2 E2].
  { intros p Hp. rewrite (for_each_mem _ _ _ p E1). apply Hin, in_or_app.
    destruct won; auto. }
  destruct (@update_ratings_spec ps2 team1 team2 won)
    as (change & ps3 & Ec & E3 & G3 & T3 & K3).
  { intros p Hp. rewrite (for_each_mem _ _ _ p E2), (for_each_mem _ _ _ p E1).
    now apply Hin. }
  assert (G2 : forall p, Dict.get ps2 p =
             option_map (fun pl => add_wins
                 (Z.of_nat (slots (if won then team1 else team2) p))
                 (add_matches (Z.of_nat (slots (team1 ++ team2) p)) pl))
               (Dict.get (self_players t0) p)).
  { intros p. rewrite (for_each_get _ _ _ E2 p), (for_each_get _ _ _ E1 p).
    unfold slots. destruct (Dict.get (self_players t0) p); simpl;
      [|reflexivity].
    now rewrite iter_add_matches, iter_add_wins. }
  exists change,
    (save_data (set_players
       (set_matches t0 (self_matches t0
                        ++ [mkMatch now team1 team2 score1 score2])) ps3)).
  split; [|split; [|split; [|split; [|split; [|split; [|split]]]]]].
  - unfold record_match. fold t0. fold won.
    cbn [set_matches self_players]. rewrite E1, E2, E3. reflexivity.
  - rewrite <- Ec. apply rating_change_ext. intros p. rewrite G2.
    now destruct (Dict.get (self_players t0) p).
  - intros p. cbn [save_data set_players self_players].
    rewrite G3, G2. destruct (Dict.get (self_players t0) p); reflexivity.
  - cbn [save_data set_players self_players]. rewrite T3. f_equal.
    assert (Hw : forall pl, rating (add_wins 1 pl) = rating pl + 0)
      by (intros pl; simpl; lra).
    assert (Hm : forall pl, rating (add_matches 1 pl) = rating pl + 0)
      by (intros pl; simpl; lra).
    rewrite (total_rating_for_each _ _ Hw _ E2).
    rewrite (total_rating_for_each _ _ Hm _ E1).
    lra.
  - cbn [save_data set_players set_matches self_matches].
    unfold t0. now rewrite ensure_players_matches.
  - reflexivity.
  - cbn [save_data set_players self_players].
    now rewrite K3, (for_each_keys _ _ _ E2), (for_each_keys _ _ _ E1).
  - reflexivity.
Qed.

End TrackerFacts.

(* ================================================================== *)
(** * Properties of the pairing generator *)

Module PairerFacts.
Import TournamentPairer PairingSpec.

Section SortFacts.
Variable A : Type.
Variable key : A -> R.

Lemma insert_desc_perm (x : A) (l : list A) :
  Permutation (insert_desc key x l) (x :: l).
Proof.
  induction l as [|y l IH]; simpl.
  - apply Permutation_refl.
  - destruct (Rlt_dec (key x) (key y)).
    + apply perm_trans with (y :: x :: l).
      * now apply perm_skip.
      * apply perm_swap.
    + apply Permutation_refl.
Qed.

Lemma sorted_reverse_perm (l : list A) :
  Permutation (sorted_reverse key l) l.
Proof.
  induction l as [|x l IH]; simpl.
  - constructor.
  - eapply perm_trans; [apply insert_desc_perm|].
    now apply perm_skip.
Qed.

Lemma sorted_reverse_length (l : list A) :
  List.length (sorted_reverse key l) = List.length l.
Proof. apply Permutation_length, sorted_reverse_perm. Qed.

(** A list already in descending order is left as it is. *)
Lemma sorted_reverse_fixed (l : list A) :
  Sorted (fun a b => (key b <= key a)%R) l -> sorted_reverse key l = l.
Proof.
  induction 1 as [|x l Hs IH Hhd]; simpl; [reflexivity|].
  rewrite IH.
  destruct Hhd as [|y l Hyx]; simpl; [reflexivity|].
  destruct (Rlt_dec (key x) (key y)); [lra|reflexivity].
Qed.

(** The result is in descending order. *)
Lemma insert_desc_sorted (x : A) (l : list A) :
  Sorted (fun a b => (key b <= key a)%R) l ->
  Sorted (fun a b => (key b <= key a)%R) (insert_desc key x l).
Proof.
  induction 1 as [|y l Hs IH Hhd]; simpl.
  - repeat constructor.
  - destruct (Rlt_dec (key x) (key y)) as [Hlt|Hge].
    + constructor; [exact IH|].
      destruct Hhd as [|z l Hzy]; simpl.
      * constructor; lra.
      * destruct (Rlt_dec (key x) (key z)); constructor; lra.
    + constructor; [now constructor|].
      constructor; lra.
Qed.

Lemma sorted_reverse_sorted (l : list A) :
  Sorted (fun a b => (key b <= key a)%R) (sorted_reverse key l).
Proof.
  induction l as [|x l IH]; simpl; [constructor|].
  now apply insert_desc_sorted.
Qed.
(** The sort is stable: the items of one key are in the order they had. *)
Lemma insert_desc_stable (v : R) (x : A) (l : list A) :
  filter (has_key key v) (insert_desc key x l)
  = filter (has_key key v) (x :: l).
Proof.
  induction l as [|y l IH]; [reflexivity|].
  cbn [insert_desc]. destruct (Rlt_dec (key x) (key y)) as [Hlt|_];
    [|reflexivity].
  cbn [filter] in *. rewrite IH. unfold has_key.
  destruct (Req_dec_T (key x) v), (Req_dec_T (key y) v);
    try reflexivity; lra.
Qed.

Lemma sorted_reverse_stable (v : R) (l : list A) :
  filter (has_key key v) (sorted_reverse key l) = filter (has_key key v) l.
Proof.
  induction l as [|x l IH]; [reflexivity|].
  cbn [sorted_reverse fold_right]. fold (sorted_reverse key l).
  rewrite insert_desc_stable. cbn [filter]. now rewrite IH.
Qed.

End SortFacts.

Section PoolFacts.
Variable A : Type.

Lemma pop_back_snoc (l : list A) (x : A) :
  pop_back (l ++ [x]) = Ok (x, l).
Proof.
  induction l as [|y l IH]; simpl; [reflexivity|].
  rewrite IH. destruct (l ++ [x]) eqn:E; [|reflexivity].
  now destruct l.
Qed.

Lemma pop_back_inv (l : list A) (x : A) (rest : list A) :
  pop_back l = Ok (x, rest) -> l = rest ++ [x].
Proof.
  revert x rest. induction l as [|y l IH]; intros x rest; simpl.
  - discriminate.
  - destruct l as [|z l].
    + intros H; now inversion H.
    + destruct (pop_back (z :: l)) as [[y' rest']|e] eqn:E; simpl.
      * intros H; inversion H; subst.
        now rewrite (IH _ _ eq_refl).
      * discriminate.
Qed.

Lemma pop_back_nonempty (y : A) (l : list A) :
  exists x rest, pop_back (y :: l) = Ok (x, rest).
Proof.
  destruct (exists_last (l:=y :: l)) as [rest [x E]]; [discriminate|].
  exists x, rest. rewrite E. apply pop_back_snoc.
Qed.

(** A pop from a non-empty pool succeeds, takes one item and leaves the
  others. *)
Lemma pop_player_nonempty (pool : list A) :
  pool <> [] ->
  exists x rest, pop_player pool = Ok (x, rest)
    /\ Permutation pool (x :: rest)
    /\ List.length pool = S (List.length rest).
Proof.
  intros Hne. unfold pop_player.
  destruct (Nat.even (List.length pool)).
  - destruct pool as [|x rest]; [congruence|].
    exists x, rest. simpl. auto.
  - destruct pool as [|y l]; [congruence|].
    destruct (pop_back_nonempty y l) as [x [rest E]].
    exists x, rest. split; [exact E|].
    apply pop_back_inv in E. rewrite E. split.
    + apply Permutation_sym, Permutation_cons_append.
    + rewrite length_app. simpl. lia.
Qed.

Lemma pop_player_empty : pop_player (@nil A) = Raise IndexError.
Proof. reflexivity. Qed.
End PoolFacts.

Lemma pop_player_spec (pool : list (string * Player)) (x : string * Player)
    (rest : list (string * Player)) :
  pop_player pool = Ok (x, rest) -> parity_pop pool x rest.
Proof.
  unfold pop_player. destruct (Nat.even (List.length pool)) eqn:Ev.
  - destruct pool as [|y l]; simpl; [discriminate|].
    intros H; inversion H; subst. now constructor.
  - intros H. apply pop_back_inv in H. subst pool. now constructor.
Qed.

(** The rule of the specification determines the draw. *)
Lemma parity_pop_functional (pool : list (string * Player)) x rest x' rest' :
  parity_pop pool x rest -> parity_pop pool x' rest' ->
  x = x' /\ rest = rest'.
Proof.
  intros H H'. inversion H; subst; inversion H'; subst.
  - auto.
  - congruence.
  - congruence.
  - match goal with E : _ ++ [_] = _ ++ [_] |- _ =>
      apply app_inj_tail in E; destruct E; subst; auto end.
Qed.

Lemma draw_match_functional (pool : list (string * Player)) m rest m' rest' :
  draw_match pool m rest -> draw_match pool m' rest' ->
  m = m' /\ rest = rest'.
Proof.
  intros H H'. inversion H; subst; inversion H'; subst.
  repeat match goal with
  | A : parity_pop ?p _ _, B : parity_pop ?p _ _ |- _ =>
      destruct (parity_pop_functional A B); subst; clear B
  end.
  auto.
Qed.

Lemma draw_matches_functional n :
  forall (pool : list (string * Player)) ms rest ms' rest',
  draw_matches n pool ms rest -> draw_matches n pool ms' rest' ->
  ms = ms' /\ rest = rest'.
Proof.
  induction n as [|n IH]; intros pool ms rest ms' rest' H H';
    inversion H; subst; inversion H'; subst.
  - auto.
  - match goal with
    | A : draw_match ?p _ _, B : draw_match ?p _ _ |- _ =>
        destruct (draw_match_functional A B); subst
    end.
    match goal with
    | A : draw_matches n ?p _ _, B : draw_matches n ?p _ _ |- _ =>
        destruct (IH _ _ _ _ _ A B); subst
    end.
    auto.
Qed.

(** One match out of a pool of at least four. *)
Lemma make_match_ok (pool : list (string * Player)) :
  4 <= List.length pool ->
  exists m pool',
    make_match pool = Ok (m, pool')
    /\ draw_match pool m pool'
    /\ Permutation (Dict.keys pool) (pairing_players m ++ Dict.keys pool')
    /\ List.length pool = 4 + List.length pool'.
Proof.
  intros Hlen.
  destruct (@pop_player_nonempty _ pool) as (x0 & pool1 & E0 & P0 & L0).
  { destruct pool; simpl in *; [lia|discriminate]. }
  destruct (@pop_player_nonempty _ pool1) as (x1 & pool2 & E1 & P1 & L1).
  { destruct pool1; simpl in *; [lia|discriminate]. }
  destruct (@pop_player_nonempty _ pool2) as (x2 & pool3 & E2 & P2 & L2).
  { destruct pool2; simpl in *; [lia|discriminate]. }
  destruct (@pop_player_nonempty _ pool3) as (x3 & pool4 & E3 & P3 & L3).
  { destruct pool3; simpl in *; [lia|discriminate]. }
  exists ((fst x0, fst x3), (fst x1, fst x2)), pool4.
  split; [|split; [|split]].
  - unfold make_match, select_players.
    rewrite E0; cbn [bind]. rewrite E1; cbn [bind].
    rewrite E2; cbn [bind]. rewrite E3; cbn [bind]. reflexivity.
  - apply draw_four with pool1 pool2 pool3; now apply pop_player_spec.
  - unfold Dict.keys. simpl.
    rewrite (Permutation_map fst P0). simpl. apply perm_skip.
    rewrite (Permutation_map fst P1). simpl. apply perm_skip.
    rewrite (Permutation_map fst P2). simpl. apply perm_skip.
    rewrite (Permutation_map fst P3). simpl. apply Permutation_refl.
  - lia.
Qed.

(** The match in closed form.  Every pool of four or more is
    [a :: b :: mid ++ [y; z]].  When its length is even the draws are
    [a], [z], [b], [y]; when it is odd they are [z], [a], [y], [b]. *)
Lemma pool_ends (a b y z : string * Player) (mid : list (string * Player)) :
  b :: mid ++ [y; z] = (b :: mid ++ [y]) ++ [z].
Proof. simpl. now rewrite <- app_assoc. Qed.

Lemma pool_parity (a b y z : string * Player)
    (mid : list (string * Player)) :
  Nat.even (List.length (a :: b :: mid ++ [y; z]))
    = Nat.even (List.length mid)
  /\ Nat.even (List.length (b :: mid ++ [y; z]))
    = negb (Nat.even (List.length mid))
  /\ Nat.even (List.length (b :: mid ++ [y]))
    = Nat.even (List.length mid)
  /\ Nat.even (List.length (mid ++ [y]))
    = negb (Nat.even (List.length mid))
  /\ Nat.even (List.length (a :: b :: mid ++ [y]))
    = negb (Nat.even (List.length mid))
  /\ Nat.even (List.length (a :: b :: mid))
    = Nat.even (List.length mid)
  /\ Nat.even (List.length (b :: mid))
    = negb (Nat.even (List.length mid)).
Proof.
  cbn [List.length]. rewrite !length_app. cbn [List.length].
  replace (List.length mid + 2) with (S (S (List.length mid))) by lia.
  replace (List.length mid + 1) with (S (List.length mid)) by lia.
  rewrite !Nat.even_succ_succ, !Nat.even_succ, <- !Nat.negb_even.
  repeat split; reflexivity.
Qed.

Lemma make_match_even (a b y z : string * Player)
    (mid : list (string * Player)) :
  Nat.even (List.length mid) = true ->
  make_match (a :: b :: mid ++ [y; z])
  = Ok (((fst a, fst y), (fst z, fst b)), mid).
Proof.
  intros Hev.
  destruct (pool_parity a b y z mid) as (P0 & P1 & P2 & P3 & _).
  rewrite Hev in *. cbn [negb] in *.
  unfold make_match, select_players, pop_player.
  rewrite P0. cbn [pop_front bind].
  rewrite P1, (pool_ends a b y z mid), pop_back_snoc. cbn [bind].
  rewrite P2. cbn [pop_front bind].
  rewrite P3, pop_back_snoc. reflexivity.
Qed.

Lemma make_match_odd (a b y z : string * Player)
    (mid : list (string * Player)) :
  Nat.even (List.length mid) = false ->
  make_match (a :: b :: mid ++ [y; z])
  = Ok (((fst z, fst b), (fst a, fst y)), mid).
Proof.
  intros Hodd.
  destruct (pool_parity a b y z mid) as (P0 & _ & _ & _ & P4 & _ & P6).
  rewrite Hodd in *. cbn [negb] in *.
  unfold make_match, select_players, pop_player.
  rewrite P0.
  change (a :: b :: mid ++ [y; z]) with (a :: (b :: mid ++ [y; z])).
  rewrite (pool_ends a b y z mid).
  change (a :: (b :: mid ++ [y]) ++ [z]) with ((a :: b :: mid ++ [y]) ++ [z]).
  rewrite pop_back_snoc. cbn [bind].
  rewrite P4. cbn [pop_front bind].
  change (b :: mid ++ [y]) with ((b :: mid) ++ [y]).
  rewrite length_app. cbn [List.length].
  replace (S (List.length mid) + 1) with (S (S (List.length mid))) by lia.
  rewrite Nat.even_succ_succ, Hodd, pop_back_snoc. cbn [bind].
  rewrite P6. cbn [pop_front bind]. reflexivity.
Qed.

(** A pool of fewer than four cannot give a match. *)
Lemma make_match_short (pool : list (string * Player)) :
  List.length pool < 4 -> make_match pool = Raise IndexError.
Proof.
  intros Hlen.
  destruct pool as [|a [|b [|c [|d pool]]]]; simpl in Hlen; try lia;
    reflexivity.
Qed.

(** [n] matches out of a pool of at least [4 * n]. *)
Lemma pair_matches_ok (n : nat) :
  forall (pool : list (string * Player)) (acc : list Pairing),
  4 * n <= List.length pool ->
  exists ms pool',
    pair_matches n pool acc = Ok (acc ++ ms, pool')
    /\ draw_matches n pool ms pool'
    /\ List.length ms = n
    /\ Permutation (Dict.keys pool) (drawn_players ms ++ Dict.keys pool')
    /\ List.length pool = 4 * n + List.length pool'.
Proof.
  induction n as [|n IH]; intros pool acc Hlen.
  - exists [], pool. simpl. rewrite app_nil_r.
    repeat split; auto. constructor.
  - destruct (@make_match_ok pool) as (m & pool1 & E & D & P & L); [lia|].
    destruct (IH pool1 (acc ++ [m])) as (ms & pool2 & E' & D' & Lms & P' & L');
      [lia|].
    exists (m :: ms), pool2.
    split; [|split; [|split; [|split]]].
    + simpl. rewrite E. simpl. rewrite E'. now rewrite <- app_assoc.
    + econstructor; eassumption.
    + simpl. now rewrite Lms.
    + unfold drawn_players in *. simpl. rewrite <- app_assoc.
      eapply perm_trans; [exact P|]. now apply Permutation_app_head.
    + lia.
Qed.

End PairerFacts.

(* ================================================================== *)
(** * Claims about the rating engine and the match recorder *)

Module TrackerClaims.
Import Datetime BadmintonTracker TrackerSpec DictFacts TrackerFacts.

Local Open Scope R_scope.
Local Open Scope string_scope.

(** ** The expected score *)

Lemma expected_team1_equal (r : R) : expected_team1 r r = 1 / 2.
Proof.
  unfold expected_team1.
  replace ((r - r) / 400) with 0 by lra.
  rewrite Rpower_O by lra. lra.
Qed.

Lemma expected_team1_pos (r1 r2 : R) : 0 < expected_team1 r1 r2.
Proof.
  unfold expected_team1, Rpower.
  assert (H := exp_pos ((r2 - r1) / 400 * ln 10)).
  apply Rdiv_lt_0_compat; lra.
Qed.

Lemma expected_team1_lt_1 (r1 r2 : R) : expected_team1 r1 r2 < 1.
Proof.
  unfold expected_team1, Rpower.
  assert (H := exp_pos ((r2 - r1) / 400 * ln 10)).
  apply Rmult_lt_reg_r with (1 + exp ((r2 - r1) / 400 * ln 10)); [lra|].
  unfold Rdiv. rewrite Rmult_assoc, Rinv_l by lra. lra.
Qed.

(** The rating change lies strictly between -32 and 32. *)
Lemma rating_change_of_bounds (r1 r2 : R) (won : bool) :
  -32 < rating_change_of r1 r2 won < 32.
Proof.
  assert (H0 := expected_team1_pos r1 r2).
  assert (H1 := expected_team1_lt_1 r1 r2).
  unfold rating_change_of, K, actual_score. destruct won; lra.
Qed.

Lemma rating_change_of_equal (r : R) (won : bool) :
  rating_change_of r r won = if won then 16 else -16.
Proof.
  unfold rating_change_of, K, actual_score. rewrite expected_team1_equal.
  destruct won; lra.
Qed.

Lemma rating_change_equal_teams (ps : Players) (team1 team2 : list string)
    (r : R) (won : bool) :
  team_rating ps team1 = Some r -> team_rating ps team2 = Some r ->
  rating_change ps team1 team2 won = Some (if won then 16 else -16).
Proof.
  intros H1 H2. unfold rating_change. rewrite H1, H2.
  now rewrite rating_change_of_equal.
Qed.




(** ** Places and distinct players *)

Lemma slots_team1 (team1 team2 : list string) (p : string) :
  NoDup (team1 ++ team2) -> In p team1 ->
  slots team1 p = 1%nat /\ slots team2 p = 0%nat.
Proof.
  intros Hnd Hin. unfold slots.
  assert (H := proj1 (NoDup_count_occ' string_dec (team1 ++ team2)) Hnd p
                 (in_or_app _ _ _ (or_introl Hin))).
  rewrite count_occ_app in H.
  assert (H1 := proj1 (NoDup_count_occ' string_dec team1)
                  (NoDup_app_remove_r _ _ Hnd) p Hin).
  lia.
Qed.

Lemma slots_team2 (team1 team2 : list string) (p : string) :
  NoDup (team1 ++ team2) -> In p team2 ->
  slots team1 p = 0%nat /\ slots team2 p = 1%nat.
Proof.
  intros Hnd Hin. unfold slots.
  assert (H := proj1 (NoDup_count_occ' string_dec (team1 ++ team2)) Hnd p
                 (in_or_app _ _ _ (or_intror Hin))).
  rewrite count_occ_app in H.
  assert (H1 := proj1 (NoDup_count_occ' string_dec team2)
                  (NoDup_app_remove_l _ _ Hnd) p Hin).
  lia.
Qed.

Lemma slots_outside (team : list string) (p : string) :
  ~ In p team -> slots team p = 0%nat.
Proof. intros H. now apply count_occ_not_In. Qed.

Lemma slots_app (team1 team2 : list string) (p : string) :
  slots (team1 ++ team2) p = (slots team1 p + slots team2 p)%nat.
Proof. apply count_occ_app. Qed.

(** ** The counters *)

(** The first match of a new tracker, A and B against C and D, 21 to 15:
    the ratings become 1516 and 1484, everybody has one match, A and B have
    one win. *)
Lemma first_match_scenario :
  exists t',
    record_match fresh ["A"; "B"] ["C"; "D"] 21 15 stamp = Some t'
    /\ Dict.keys (self_players t') = ["A"; "B"; "C"; "D"]
    /\ (forall p, In p ["A"; "B"] ->
          option_map rating (Dict.get (self_players t') p) = Some 1516
          /\ option_map matches (Dict.get (self_players t') p) = Some 1%Z
          /\ option_map wins (Dict.get (self_players t') p) = Some 1%Z)
    /\ (forall p, In p ["C"; "D"] ->
          option_map rating (Dict.get (self_players t') p) = Some 1484
          /\ option_map matches (Dict.get (self_players t') p) = Some 1%Z
          /\ option_map wins (Dict.get (self_players t') p) = Some 0%Z)
    /\ List.length (self_matches t') = 1%nat
    /\ writes t' = 5%nat.
Proof.
  destruct (record_match_spec fresh ["A"; "B"] ["C"; "D"] 21 15 stamp)
    as (change & t' & E & Ec & G & _ & M & _ & Hk & Hw).
  change (self_players (ensure_players (["A"; "B"] ++ ["C"; "D"]) fresh))
    with four_new in *.
  change (21 >? 15)%Z with true in *.
  assert (change = 16) as ->.
  { assert (H := @rating_change_equal_teams four_new ["A"; "B"] ["C"; "D"]
                   ((0 + 1500 + 1500) / 2) true eq_refl eq_refl).
    cbv iota in H. congruence. }
  exists t'. split; [exact E|].
  assert (Hnd : NoDup (["A"; "B"] ++ ["C"; "D"])).
  { distinct_names. }
  split; [|split; [|split; [|split]]].
  - exact Hk.
  - intros p Hp. rewrite G.
    assert (Dict.get four_new p = Some new_player) as ->.
    { simpl in Hp. destruct Hp as [<-|[<-|[]]]; reflexivity. }
    cbn [option_map stats_after rating matches wins new_player].
    rewrite slots_app.
    destruct (@slots_team1 ["A"; "B"] ["C"; "D"] p Hnd Hp) as [-> ->].
    repeat split; f_equal; simpl; lra.
  - intros p Hp. rewrite G.
    assert (Dict.get four_new p = Some new_player) as ->.
    { simpl in Hp. destruct Hp as [<-|[<-|[]]]; reflexivity. }
    cbn [option_map stats_after rating matches wins new_player].
    rewrite slots_app.
    destruct (@slots_team2 ["A"; "B"] ["C"; "D"] p Hnd Hp) as [-> ->].
    repeat split; f_equal; simpl; lra.
  - now rewrite M.
  - exact Hw.
Qed.

(** ** Adding a player *)

(** C8. [add_player] on a name the store does not have adds it with rating
    1500 and no match and no win, leaves the other players alone, writes the
    store and returns [True]; on a name the store has it returns [False] and
    changes nothing, the file included; hence a second call with the same
    name returns [False] and changes nothing. *)
Theorem add_player_idempotent (t : Tracker) (name : string) :
  (Dict.mem (self_players t) name = false ->
     snd (add_player t name) = true
     /\ Dict.get (self_players (fst (add_player t name))) name
        = Some (mkPlayer 1500 0 0)
     /\ (forall other, other <> name ->
           Dict.get (self_players (fst (add_player t name))) other
           = Dict.get (self_players t) other)
     /\ self_matches (fst (add_player t name)) = self_matches t
     /\ file (fst (add_player t name))
        = Some (mkData (self_players (fst (add_player t name)))
                       (dump_matches (self_matches t) []))
     /\ writes (fst (add_player t name)) = S (writes t))
  /\ (Dict.mem (self_players t) name = true ->
        add_player t name = (t, false))
  /\ add_player (fst (add_player t name)) name
     = (fst (add_player t name), false).
Proof.
  split; [|split].
  - intros M. rewrite (add_player_new _ _ M). cbn [fst snd].
    split; [reflexivity|]. split; [apply get_set_same|].
    split; [|split; [|split]]; try reflexivity.
    intros other Hne. cbn [save_data set_players self_players].
    apply get_set_other. congruence.
  - apply add_player_known.
  - destruct (Dict.mem (self_players t) name) eqn:M.
    + rewrite (add_player_known _ _ M). cbn [fst].
      now apply add_player_known.
    + rewrite (add_player_new _ _ M). cbn [fst].
      apply add_player_known. apply mem_set_same.
Qed.

(** C8 at the name A and a tracker without players. *)
Lemma add_player_idempotent_example :
  Dict.mem (self_players fresh) "A" = false
  /\ snd (add_player fresh "A") = true
  /\ Dict.get (self_players (fst (add_player fresh "A"))) "A"
     = Some (mkPlayer 1500 0 0)
  /\ writes (fst (add_player fresh "A")) = 1%nat
  /\ add_player (fst (add_player fresh "A")) "A"
     = (fst (add_player fresh "A"), false).
Proof.
  assert (M : Dict.mem (self_players fresh) "A" = false) by reflexivity.
  split; [exact M|].
  destruct (add_player_idempotent fresh "A") as (Hnew & _ & Hagain).
  destruct (Hnew M) as (Hr & Hg & _ & _ & _ & Hw).
  split; [exact Hr|]. split; [exact Hg|]. split; [exact Hw|exact Hagain].
Defined.

End TrackerClaims.

(* ================================================================== *)
(** * Claims about the data file *)

Module StoreClaims.
Import Datetime BadmintonTracker TrackerSpec DatetimeFacts TrackerFacts.

Local Open Scope string_scope.
Local Open Scope list_scope.

Lemma load_matches_acc (stored : list (MatchOf string)) :
  forall acc : list Match,
  load_matches stored acc = option_map (app acc) (load_matches stored []).
Proof.
  induction stored as [|m stored IH]; intros acc; simpl.
  - now rewrite app_nil_r.
  - destruct (fromisoformat (date m)) as [d|]; [|reflexivity].
    rewrite (IH (acc ++ _)), (IH [_]).
    destruct (load_matches stored []); simpl; [|reflexivity].
    now rewrite <- app_assoc.
Qed.

Lemma dump_matches_acc (ms : list Match) :
  forall acc : list (MatchOf string),
  dump_matches ms acc = acc ++ dump_matches ms [].
Proof.
  induction ms as [|m ms IH]; intros acc; simpl.
  - now rewrite app_nil_r.
  - rewrite (IH (acc ++ _)), (IH [_]). now rewrite <- app_assoc.
Qed.

Lemma with_date_back (m : MatchOf string) (d : datetime) :
  with_date (with_date m d) (date m) = m.
Proof. now destruct m. Qed.

Lemma with_date_forth (m : Match) (s : string) :
  with_date (with_date m s) (date m) = m.
Proof. now destruct m. Qed.

(** Matches dated by [isoformat] load, and dump to what they were. *)
Lemma load_dump_matches (stored : list (MatchOf string)) :
  Forall (fun m => printed_timestamp (date m)) stored ->
  exists ms,
    load_matches stored [] = Some ms
    /\ dump_matches ms [] = stored
    /\ Forall (fun m => valid (date m) = true) ms.
Proof.
  induction 1 as [|m stored [d [Hv Hd]] _ (ms & El & Ed & Hms)].
  - exists []. repeat split. constructor.
  - exists (with_date m d :: ms). simpl.
    rewrite Hd, (fromisoformat_isoformat _ Hv), load_matches_acc, El.
    split; [reflexivity|]. split.
    + rewrite dump_matches_acc, Ed. simpl. rewrite <- Hd.
      now rewrite with_date_back.
    + constructor; [exact Hv|exact Hms].
Qed.

(** Matches with timestamps in range dump to texts [isoformat] printed, and
    these load to what they were. *)
Lemma dump_load_matches (ms : list Match) :
  Forall (fun m => valid (date m) = true) ms ->
  Forall (fun m => printed_timestamp (date m)) (dump_matches ms [])
  /\ load_matches (dump_matches ms []) [] = Some ms.
Proof.
  induction 1 as [|m ms Hv _ [Hp El]]; simpl.
  - split; [constructor|reflexivity].
  - rewrite dump_matches_acc. simpl. split.
    + constructor; [|exact Hp]. exists (date m). now split.
    + rewrite (fromisoformat_isoformat _ Hv), load_matches_acc, El. simpl.
      now rewrite with_date_forth.
Qed.

(** Without a data file the tracker starts empty, and nothing is written. *)
Lemma init_without_file : init None = Some fresh.
Proof. reflexivity. Qed.

(** Whatever [save_data] writes is dated by [isoformat], and loading it
    gives the players and matches that were saved. *)
Lemma save_then_load (t : Tracker) :
  valid_dates t ->
  (exists data, file (save_data t) = Some data /\ printed_dates data)
  /\ load_data (save_data t) = Some (save_data t).
Proof.
  intros Hv. destruct (dump_load_matches Hv) as [Hp El]. split.
  - eexists. split; [reflexivity|exact Hp].
  - unfold load_data. cbn [file save_data data_matches data_players].
    now rewrite El.
Qed.

(** The timestamps in memory stay in range: after loading, after adding a
    player and after recording a match at a time in range. *)
Lemma load_data_valid_dates (t0 t : Tracker) :
  load_data t0 = Some t -> valid_dates t.
Proof.
  unfold load_data, valid_dates. destruct (file t0) as [data|].
  - destruct (load_matches (data_matches data) []) as [ms|] eqn:E;
      [|discriminate].
    intros H; inversion H; subst; clear H. cbn [self_matches].
    revert ms E. generalize (@nil Match) (Forall_nil (fun m : Match =>
      valid (date m) = true)).
    induction (data_matches data) as [|m stored IH]; intros acc Hacc ms E;
      simpl in E.
    + now inversion E; subst.
    + destruct (fromisoformat (date m)) as [d|] eqn:F; [|discriminate].
      apply (IH (acc ++ [with_date m d])); [|exact E].
      apply Forall_app. split; [exact Hacc|]. constructor; [|constructor].
      simpl. unfold fromisoformat, checked in F.
      repeat match type of F with
      | match ?x with _ => _ end = _ => destruct x eqn:?; try discriminate
      | (if ?x then _ else _) = _ => destruct x eqn:?; try discriminate
      end; inversion F; subst; assumption.
  - intros H; inversion H; subst. constructor.
Qed.


(** C9 (as amended). A data record whose matches are dated by texts that
    [isoformat] prints (every record [save_data] writes is such a record)
    loads, and saving what was loaded writes the same record again: the same
    players, the same matches, the same date texts. *)
Theorem load_then_save (t0 : Tracker) (data : Data) :
  file t0 = Some data ->
  printed_dates data ->
  exists t,
    load_data t0 = Some t
    /\ self_players t = data_players data
    /\ file (save_data t) = Some data.
Proof.
  intros Hf Hp. destruct (load_dump_matches Hp) as (ms & El & Ed & _).
  exists (mkTracker (data_players data) ms (file t0) (writes t0)).
  split; [|split].
  - unfold load_data. now rewrite Hf, El.
  - reflexivity.
  - cbn [save_data file self_players self_matches]. rewrite Ed.
    now destruct data.
Qed.

(** C9 at a record with one match dated by [isoformat]. *)
Lemma load_then_save_example :
  file (mkTracker [] [] (Some full_dated) 0) = Some full_dated
  /\ printed_dates full_dated
  /\ exists t,
    load_data (mkTracker [] [] (Some full_dated) 0) = Some t
    /\ self_players t = data_players full_dated
    /\ file (save_data t) = Some full_dated.
Proof.
  assert (Hp : printed_dates full_dated).
  { repeat constructor. exists stamp. split; reflexivity. }
  split; [reflexivity|]. split; [exact Hp|].
  exact (@load_then_save (mkTracker [] [] (Some full_dated) 0) full_dated
           eq_refl Hp).
Defined.

(** C9, the claim as first stated fails: a match dated ["2024-05-01T18:30"]
    loads, and is saved with the date ["2024-05-01T18:30:00"]. *)
Lemma short_timestamp_not_reproduced :
  exists t,
    load_data (mkTracker [] [] (Some short_dated) 0) = Some t
    /\ option_map (fun data => map (@date string) (data_matches data))
         (file (save_data t)) = Some ["2024-05-01T18:30:00"]
    /\ map (@date string) (data_matches short_dated) = ["2024-05-01T18:30"]
    /\ file (save_data t) <> Some short_dated.
Proof.
  eexists. split; [reflexivity|]. split; [reflexivity|].
  split; [reflexivity|].
  intros H. apply (f_equal (option_map
    (fun data => map (@date string) (data_matches data)))) in H.
  discriminate H.
Qed.

End StoreClaims.

(* ================================================================== *)
(** * Claims about the pairing generator *)

Module PairerClaims.
Import TournamentPairer PairingSpec DictFacts PairerFacts.

Local Open Scope Z_scope.

(** With enough players the generator returns: the sorted snapshot is the
    pool, and the loop draws [num_matches] matches from it. *)
Lemma generate_pairings_pool_ok (players : Players) (n : Z) :
  4 * n <= Z.of_nat (List.length players) ->
  exists teams pool',
    generate_pairings_pool players n = Ok (teams, pool')
    /\ draw_matches (Z.to_nat n) (sorted_reverse rating_key players) teams pool'
    /\ List.length teams = Z.to_nat n
    /\ Permutation (Dict.keys players) (drawn_players teams ++ Dict.keys pool')
    /\ List.length players = (4 * Z.to_nat n + List.length pool')%nat.
Proof.
  intros Hlen. unfold generate_pairings_pool.
  destruct (Z.ltb_spec (Z.of_nat (List.length players)) (n * 4)) as [Hlt|_];
    [lia|].
  destruct (@pair_matches_ok (Z.to_nat n)
              (sorted_reverse rating_key players) [])
    as (ms & pool' & E & D & L & P & Lp).
  { rewrite sorted_reverse_length. lia. }
  exists ms, pool'. simpl in E. rewrite E.
  repeat split; auto.
  - eapply perm_trans; [|exact P].
    apply Permutation_map, Permutation_sym, sorted_reverse_perm.
  - now rewrite sorted_reverse_length in Lp.
Qed.

Lemma generate_pairings_of_pool (players : Players) (n : Z) teams pool' :
  generate_pairings_pool players n = Ok (teams, pool') ->
  generate_pairings players n = Ok teams.
Proof. intros E. unfold generate_pairings. now rewrite E. Qed.

Lemma NoDup_flat_map_each (A B : Type) (f : A -> list B) (l : list A) :
  NoDup (flat_map f l) -> Forall (fun a => NoDup (f a)) l.
Proof.
  induction l as [|a l IH]; simpl; intros H; constructor.
  - eapply NoDup_app_remove_r, H.
  - eapply IH, NoDup_app_remove_l, H.
Qed.

Lemma pairing_players_disjoint (m : Pairing) :
  NoDup (pairing_players m) -> teams_disjoint m.
Proof.
  destruct m as [[p0 p3] [p1 p2]]. simpl. intros H.
  inversion H as [|? ? N0 H0]; subst.
  inversion H0 as [|? ? N1 H1]; subst.
  inversion H1 as [|? ? N2 H2]; subst.
  simpl in *. repeat split; intros ->; tauto.
Qed.

(** C3. [generate_pairings] raises the insufficient-players error exactly
    when there are fewer than [4 * num_matches] players; with at least that
    many it returns a list of pairings; and it raises nothing else. *)
Theorem generate_pairings_insufficient_iff (players : Players) (n : Z) :
  (generate_pairings players n = Raise InsufficientPlayers
     <-> Z.of_nat (List.length players) < 4 * n)
  /\ (4 * n <= Z.of_nat (List.length players)
        -> exists teams, generate_pairings players n = Ok teams)
  /\ (forall e, generate_pairings players n = Raise e
        -> e = InsufficientPlayers).
Proof.
  assert (Hok : 4 * n <= Z.of_nat (List.length players)
                -> exists teams, generate_pairings players n = Ok teams).
  { intros H. destruct (@generate_pairings_pool_ok players n H)
      as (teams & pool' & E & _).
    exists teams. eapply generate_pairings_of_pool, E. }
  assert (Hfail : Z.of_nat (List.length players) < 4 * n
                  -> generate_pairings players n = Raise InsufficientPlayers).
  { intros H. unfold generate_pairings, generate_pairings_pool.
    destruct (Z.ltb_spec (Z.of_nat (List.length players)) (n * 4));
      [reflexivity|lia]. }
  split; [split|split].
  - intros E.
    destruct (Z.lt_ge_cases (Z.of_nat (List.length players)) (4 * n))
      as [Hlt|Hge]; [exact Hlt|].
    destruct (Hok Hge) as [teams E']. congruence.
  - exact Hfail.
  - exact Hok.
  - intros e E.
    destruct (Z.lt_ge_cases (Z.of_nat (List.length players)) (4 * n))
      as [Hlt|Hge].
    + rewrite (Hfail Hlt) in E. congruence.
    + destruct (Hok Hge) as [teams E']. congruence.
Qed.

(** C4. The pool is the snapshot in descending order of rating (the
    snapshot itself when it is already in that order).  For a match count
    the snapshot has enough players for, the generator draws every match
    from the pool by the parity rule (front when the pool length is even,
    back when it is odd, decided anew before each pop) and pairs the four
    draws as team1 = (p0, p3), team2 = (p1, p2). *)
Theorem generate_pairings_parity_draw (players : Players) (n : Z) :
  4 * n <= Z.of_nat (List.length players) ->
  exists pool teams pool',
    pool = sorted_reverse rating_key players
    /\ descending pool
    /\ Permutation pool players
    /\ (descending players -> pool = players)
    /\ generate_pairings_pool players n = Ok (teams, pool')
    /\ generate_pairings players n = Ok teams
    /\ draw_matches (Z.to_nat n) pool teams pool'.
Proof.
  intros Hlen.
  destruct (@generate_pairings_pool_ok players n Hlen)
    as (teams & pool' & E & D & _).
  exists (sorted_reverse rating_key players), teams, pool'.
  split; [reflexivity|]. split; [apply sorted_reverse_sorted|].
  split; [apply sorted_reverse_perm|].
  split; [apply sorted_reverse_fixed|].
  split; [exact E|]. split; [|exact D].
  eapply generate_pairings_of_pool, E.
Qed.

(** C5. On exactly [4 * num_matches] players the generator uses up the
    pool and returns [num_matches] pairings; the two teams of a pairing
    share no player, no player is drawn twice, and the players drawn are
    the players of the snapshot. *)
Theorem generate_pairings_exact_pool (players : Players) (n : Z) :
  Z.of_nat (List.length players) = 4 * n ->
  NoDup (Dict.keys players) ->
  exists teams,
    generate_pairings_pool players n = Ok (teams, [])
    /\ generate_pairings players n = Ok teams
    /\ Z.of_nat (List.length teams) = n
    /\ Forall teams_disjoint teams
    /\ NoDup (drawn_players teams)
    /\ Permutation (drawn_players teams) (Dict.keys players).
Proof.
  intros Hlen Hnd.
  destruct (@generate_pairings_pool_ok players n) as
    (teams & pool' & E & D & L & P & Lp); [lia|].
  assert (pool' = []) as ->.
  { destruct pool'; [reflexivity|]. simpl in Lp. lia. }
  simpl in P. rewrite app_nil_r in P.
  assert (Hnd' : NoDup (drawn_players teams)).
  { eapply Permutation_NoDup; eassumption. }
  exists teams. repeat split.
  - exact E.
  - eapply generate_pairings_of_pool, E.
  - lia.
  - apply NoDup_flat_map_each in Hnd'.
    eapply Forall_impl; [|exact Hnd'].
    intros m. apply pairing_players_disjoint.
  - exact Hnd'.
  - now apply Permutation_sym.
Qed.

(** C10. For a match count of zero or less the generator returns the empty
    list, whatever the snapshot holds. *)
Theorem generate_pairings_nonpositive (players : Players) (n : Z) :
  n <= 0 -> generate_pairings players n = Ok [].
Proof.
  intros Hn. unfold generate_pairings, generate_pairings_pool.
  destruct (Z.ltb_spec (Z.of_nat (List.length players)) (n * 4)); [lia|].
  replace (Z.to_nat n) with 0%nat by lia. reflexivity.
Qed.

(** The pairer reads the players the tracker saved. *)
Lemma load_data_saved (t : BadmintonTracker.Tracker) :
  load_data (BadmintonTracker.file (BadmintonTracker.save_data t))
  = Ok (BadmintonTracker.self_players t).
Proof. reflexivity. Qed.

(** ** The statements at eight players *)

Lemma eight_descending : descending eight.
Proof.
  unfold descending, eight.
  repeat (constructor; try (unfold rating_key; simpl; lra)).
Qed.

Lemma eight_distinct : NoDup (Dict.keys eight).
Proof. distinct_names. Qed.

(** Two matches out of the eight: the draws are P1, P8, P2, P7 and then
    P3, P6, P4, P5. *)
Lemma generate_pairings_eight :
  generate_pairings eight 2
  = Ok [(("P1", "P7"), ("P8", "P2")); (("P3", "P5"), ("P6", "P4"))]%string.
Proof.
  unfold generate_pairings, generate_pairings_pool.
  change (Z.of_nat (List.length eight) <? 2 * 4) with false. cbv iota.
  rewrite (sorted_reverse_fixed rating_key eight_descending).
  reflexivity.
Qed.

(** C3 at the eight players: three matches are refused, two are given. *)
Lemma generate_pairings_insufficient_iff_example :
  Z.of_nat (List.length eight) < 4 * 3
  /\ generate_pairings eight 3 = Raise InsufficientPlayers
  /\ 4 * 2 <= Z.of_nat (List.length eight)
  /\ exists teams, generate_pairings eight 2 = Ok teams.
Proof.
  assert (H3 : Z.of_nat (List.length eight) < 4 * 3) by (simpl; lia).
  assert (H2 : 4 * 2 <= Z.of_nat (List.length eight)) by (simpl; lia).
  split; [exact H3|]. split; [|split; [exact H2|]].
  - exact (proj2 (proj1 (generate_pairings_insufficient_iff eight 3)) H3).
  - exact (proj1 (proj2 (generate_pairings_insufficient_iff eight 2)) H2).
Defined.

(** C4 at the eight players and two matches. *)
Lemma generate_pairings_parity_draw_example :
  4 * 2 <= Z.of_nat (List.length eight)
  /\ exists teams pool',
    generate_pairings_pool eight 2 = Ok (teams, pool')
    /\ generate_pairings eight 2 = Ok teams
    /\ draw_matches (Z.to_nat 2) eight teams pool'.
Proof.
  assert (Hlen : 4 * 2 <= Z.of_nat (List.length eight)) by (simpl; lia).
  split; [exact Hlen|].
  destruct (@generate_pairings_parity_draw eight 2 Hlen)
    as (pool & teams & pool' & _ & _ & _ & Hfix & E & E' & D).
  rewrite (Hfix eight_descending) in D.
  exists teams, pool'. split; [exact E|]. split; [exact E'|exact D].
Defined.

(** C5 at the eight players and two matches. *)
Lemma generate_pairings_exact_pool_example :
  Z.of_nat (List.length eight) = 4 * 2
  /\ NoDup (Dict.keys eight)
  /\ exists teams,
    generate_pairings_pool eight 2 = Ok (teams, [])
    /\ generate_pairings eight 2 = Ok teams
    /\ Z.of_nat (List.length teams) = 2
    /\ Forall teams_disjoint teams
    /\ NoDup (drawn_players teams)
    /\ Permutation (drawn_players teams) (Dict.keys eight).
Proof.
  split; [reflexivity|]. split; [exact eight_distinct|].
  exact (@generate_pairings_exact_pool eight 2 eq_refl eight_distinct).
Defined.

(** C10 at no player at all and a negative match count. *)
Lemma generate_pairings_nonpositive_example :
  -1 <= 0 /\ generate_pairings [] (-1) = Ok [].
Proof.
  assert (H : -1 <= 0) by lia.
  split; [exact H|].
  exact (@generate_pairings_nonpositive [] (-1) H).
Defined.

End PairerClaims.

(* ================================================================== *)
(** * More about the tracker *)

Module TrackerExtras.
Import Datetime BadmintonTracker TrackerSpec Invariants Display.
Import DictFacts TrackerFacts.

Local Open Scope R_scope.
Local Open Scope string_scope.
Local Open Scope list_scope.

(** ** Names in the store *)

Lemma mem_keys (V : Type) (d : Dict.dict V) (k : string) :
  Dict.mem d k = true <-> In k (Dict.keys d).
Proof.
  unfold Dict.mem, Dict.keys.
  induction d as [|[k' v] d IH]; simpl.
  - split; [discriminate|tauto].
  - destruct (String.eqb k' k) eqn:E.
    + apply String.eqb_eq in E. split; auto.
    + apply String.eqb_neq in E. rewrite IH. split; [auto|].
      intros [H|H]; [congruence|exact H].
Qed.

Lemma mem_false_keys (V : Type) (d : Dict.dict V) (k : string) :
  Dict.mem d k = false <-> ~ In k (Dict.keys d).
Proof.
  rewrite <- mem_keys. destruct (Dict.mem d k); split; congruence.
Qed.


(** ** The rating update on its own *)

Lemma all_known_or_missing (ps : Players) (names : list string) :
  (forall p, In p names -> Dict.mem ps p = true)
  \/ (exists p, In p names /\ Dict.mem ps p = false).
Proof.
  induction names as [|q names [IH|[p [Hp Hm]]]].
  - left. intros p [].
  - destruct (Dict.mem ps q) eqn:M.
    + left. intros p [<-|Hp]; auto.
    + right. exists q. split; [now left|exact M].
  - right. exists p. split; [now right|exact Hm].
Qed.

Lemma sum_ratings_none (ps : Players) (names : list string) :
  forall acc p, In p names -> Dict.mem ps p = false ->
  sum_ratings ps names acc = None.
Proof.
  induction names as [|q names IH]; intros acc p Hin Hm; [destruct Hin|].
  cbn [sum_ratings]. destruct (Dict.get ps q) as [pl|] eqn:G; [|reflexivity].
  destruct Hin as [->|Hin].
  - apply mem_false_iff in Hm. congruence.
  - now apply (IH _ p).
Qed.

(** X2. Called on its own, [update_ratings] raises [KeyError] exactly when a
    member of one of the teams is not in the store; in that case it raises
    while it reads the team ratings, before any rating is written. *)
Theorem update_ratings_keyerror_iff (ps : Players) (team1 team2 : list string)
    (team1_won : bool) :
  (update_ratings ps team1 team2 team1_won = None
   <-> exists p, In p (team1 ++ team2) /\ Dict.mem ps p = false)
  /\ (update_ratings ps team1 team2 team1_won = None
      -> rating_change ps team1 team2 team1_won = None).
Proof.
  assert (Hmiss : (exists p, In p (team1 ++ team2) /\ Dict.mem ps p = false)
                  -> rating_change ps team1 team2 team1_won = None).
  { intros (p & Hin & Hm). unfold rating_change, team_rating.
    apply in_app_or in Hin. destruct Hin as [Hin|Hin].
    - now rewrite (@sum_ratings_none ps team1 0 p Hin Hm).
    - rewrite (@sum_ratings_none ps team2 0 p Hin Hm).
      now destruct (sum_ratings ps team1 0). }
  assert (Hback : update_ratings ps team1 team2 team1_won = None ->
                  exists p, In p (team1 ++ team2) /\ Dict.mem ps p = false).
  { intros E. destruct (all_known_or_missing ps (team1 ++ team2))
      as [Hall|Hex]; [|exact Hex].
    destruct (@update_ratings_spec ps team1 team2 team1_won Hall)
      as (c & ps' & _ & E' & _). congruence. }
  split; [split|].
  - exact Hback.
  - intros Hex. unfold update_ratings. now rewrite (Hmiss Hex).
  - intros E. apply Hmiss, Hback, E.
Qed.

(** ** The order of the two teams *)

Lemma expected_team1_swap (r1 r2 : R) :
  expected_team1 r1 r2 + expected_team1 r2 r1 = 1.
Proof.
  unfold expected_team1.
  replace ((r1 - r2) / 400) with (- ((r2 - r1) / 400)) by lra.
  rewrite Rpower_Ropp.
  assert (H : 0 < Rpower 10 ((r2 - r1) / 400))
    by (unfold Rpower; apply exp_pos).
  field. lra.
Qed.

Lemma rating_change_of_swap (r1 r2 : R) (won : bool) :
  rating_change_of r2 r1 (negb won) = - rating_change_of r1 r2 won.
Proof.
  assert (H := expected_team1_swap r1 r2).
  unfold rating_change_of, K, actual_score. destruct won; simpl; lra.
Qed.

(** ** Stronger opposition pays more *)

(** X5. The rating change grows with the lead of team 2 over team 1 in team
    rating: against stronger opposition team 1 gains more by winning and
    loses less by losing. *)
Theorem rating_change_of_monotone (r1 r2 r1' r2' : R) (won : bool) :
  r2 - r1 <= r2' - r1' ->
  rating_change_of r1 r2 won <= rating_change_of r1' r2' won.
Proof.
  intros Hd.
  assert (Hp : Rpower 10 ((r2 - r1) / 400) <= Rpower 10 ((r2' - r1') / 400)).
  { apply Rle_Rpower; lra. }
  assert (H0 : 0 < Rpower 10 ((r2 - r1) / 400))
    by (unfold Rpower; apply exp_pos).
  assert (He : expected_team1 r1' r2' <= expected_team1 r1 r2).
  { unfold expected_team1, Rdiv. rewrite !Rmult_1_l.
    apply Rinv_le_contravar; lra. }
  unfold rating_change_of, K. lra.
Qed.

(** X5 at team ratings 1500 against 1500 and 1500 against 1600. *)
Lemma rating_change_of_monotone_example :
  1500 - 1500 <= 1600 - 1500
  /\ rating_change_of 1500 1500 true <= rating_change_of 1500 1600 true.
Proof.
  assert (H : 1500 - 1500 <= 1600 - 1500) by lra.
  split; [exact H|].
  exact (@rating_change_of_monotone 1500 1500 1500 1600 true H).
Defined.

(** X17. The scale of the rating: 400 points more for team 1 multiply its
    odds, expected score against the rest, by 10.  So a team rated 400 above
    its opponents is expected to score 10/11: it gains 32/11 by winning and
    loses 320/11 by not winning, whatever the ratings themselves. *)
Theorem rating_change_of_400_ahead (r1 r2 : R) :
  expected_team1 (r1 + 400) r2 * (1 - expected_team1 r1 r2)
  = 10 * (expected_team1 r1 r2 * (1 - expected_team1 (r1 + 400) r2))
  /\ expected_team1 (r2 + 400) r2 = 10 / 11
  /\ rating_change_of (r2 + 400) r2 true = 32 / 11
  /\ rating_change_of (r2 + 400) r2 false = - (320 / 11).
Proof.
  assert (Hodds : forall a b,
            expected_team1 (a + 400) b * (1 - expected_team1 a b)
            = 10 * (expected_team1 a b * (1 - expected_team1 (a + 400) b))).
  { intros a b. unfold expected_team1.
    replace ((b - (a + 400)) / 400) with ((b - a) / 400 + Ropp 1) by lra.
    rewrite Rpower_plus, Rpower_Ropp, Rpower_1 by lra.
    assert (H : 0 < Rpower 10 ((b - a) / 400))
      by (unfold Rpower; apply exp_pos).
    field. lra. }
  assert (He : expected_team1 (r2 + 400) r2 = 10 / 11).
  { assert (H := Hodds r2 r2).
    rewrite TrackerClaims.expected_team1_equal in H. lra. }
  split; [apply Hodds|]. split; [exact He|].
  unfold rating_change_of, K, actual_score. rewrite He. split; lra.
Qed.

(** ** Invariants *)

Lemma slots_winning_le (team1 team2 : list string) (won : bool) (p : string) :
  (slots (if won then team1 else team2) p <= slots (team1 ++ team2) p)%nat.
Proof.
  unfold slots. rewrite count_occ_app. destruct won; lia.
Qed.

Lemma club_counters_ok : counters_ok (self_players club).
Proof.
  intros p pl. cbn [club self_players four_new Dict.get].
  repeat match goal with
  | |- (if ?b then _ else _) = _ -> _ => destruct b
  end; intros H; inversion H; simpl; lia.
Qed.

(** X6. No player ever has more wins than matches, or a negative count: if
    this holds of the store it holds after [add_player] and after
    [record_match], for any teams (repeated names included). *)
Theorem counters_ok_kept (t : Tracker) (name : string)
    (team1 team2 : list string) (score1 score2 : Z) (now : datetime) :
  counters_ok (self_players t) ->
  counters_ok (self_players (fst (add_player t name)))
  /\ exists t',
       record_match t team1 team2 score1 score2 now = Some t'
       /\ counters_ok (self_players t').
Proof.
  intros Hok. split.
  - destruct (Dict.mem (self_players t) name) eqn:M.
    + now rewrite (add_player_known _ _ M).
    + rewrite (add_player_new _ _ M).
      cbn [fst save_data set_players self_players]. intros p pl.
      destruct (string_dec name p) as [->|Hne].
      * rewrite get_set_same. intros H; inversion H; simpl; lia.
      * rewrite (get_set_other _ _ Hne). apply Hok.
  - destruct (record_match_spec t team1 team2 score1 score2 now)
      as (c & t' & E & _ & G & _).
    exists t'. split; [exact E|]. intros p pl. rewrite G, ensure_players_get.
    assert (Hle := slots_winning_le team1 team2 (score1 >? score2)%Z p).
    destruct (Dict.get (self_players t) p) as [pl0|] eqn:G0.
    + assert (H0 := Hok p pl0 G0). intros H; inversion H; simpl; lia.
    + destruct (in_dec string_dec p (team1 ++ team2)); [|discriminate].
      intros H; inversion H; simpl; lia.
Qed.

(** X6 at the four new players. *)
Lemma counters_ok_kept_example :
  counters_ok (self_players club)
  /\ counters_ok (self_players (fst (add_player club "E")))
  /\ exists t',
       record_match club ["A"; "B"] ["C"; "D"] 21 15 stamp = Some t'
       /\ counters_ok (self_players t').
Proof.
  split; [exact club_counters_ok|].
  exact (@counters_ok_kept club "E" ["A"; "B"] ["C"; "D"] 21 15 stamp
           club_counters_ok).
Defined.

Lemma record_match_mem (t t' : Tracker) (team1 team2 : list string)
    (score1 score2 : Z) (now : datetime) (p : string) :
  record_match t team1 team2 score1 score2 now = Some t' ->
  Dict.mem (self_players t') p
  = Dict.mem (self_players t) p || if in_dec string_dec p (team1 ++ team2)
                                   then true else false.
Proof.
  intros E.
  destruct (record_match_spec t team1 team2 score1 score2 now)
    as (c & t'' & E' & _ & G & _).
  rewrite E in E'. inversion E'; subst t''. unfold Dict.mem.
  rewrite G, ensure_players_get.
  destruct (Dict.get (self_players t) p); [reflexivity|].
  now destruct (in_dec string_dec p (team1 ++ team2)).
Qed.

(** X7. Every player named in a recorded match is in the store: if this
    holds of the tracker it holds after [record_match], whose players are
    added before the match is appended; and no player is ever removed. *)
Theorem players_known_kept (t : Tracker) (team1 team2 : list string)
    (score1 score2 : Z) (now : datetime) :
  players_known t ->
  exists t',
    record_match t team1 team2 score1 score2 now = Some t'
    /\ players_known t'
    /\ (forall p, Dict.mem (self_players t) p = true ->
                  Dict.mem (self_players t') p = true).
Proof.
  intros Hk.
  destruct (record_match_spec t team1 team2 score1 score2 now)
    as (c & t' & E & _ & _ & _ & M & _).
  exists t'. split; [exact E|]. split.
  - intros m Hm p Hp.
    rewrite (@record_match_mem t t' team1 team2 score1 score2 now p E).
    rewrite M in Hm. apply in_app_or in Hm. destruct Hm as [Hm|[<-|[]]].
    + now rewrite (Hk m Hm p Hp).
    + cbn [team1_players team2_players] in Hp.
      destruct (in_dec string_dec p (team1 ++ team2)); [|contradiction].
      apply orb_true_r.
  - intros p Hp.
    now rewrite (@record_match_mem t t' team1 team2 score1 score2 now p E),
      Hp.
Qed.

(** X7 at a new tracker. *)
Lemma players_known_kept_example :
  players_known fresh
  /\ exists t',
    record_match fresh ["A"; "B"] ["C"; "D"] 21 15 stamp = Some t'
    /\ players_known t'
    /\ (forall p, Dict.mem (self_players fresh) p = true ->
                  Dict.mem (self_players t') p = true).
Proof.
  assert (H : players_known fresh) by (intros m []).
  split; [exact H|].
  exact (@players_known_kept fresh ["A"; "B"] ["C"; "D"] 21 15 stamp H).
Defined.

(** ** Stopping and starting again *)



(** ** The win rate of the menus *)

(** X11. The win rate the menus print never divides by zero; it is 0 for a
    player without a match, and for a player with no more wins than matches
    (and none negative) it lies between 0 and 100. *)
Theorem win_rate_range (data : Player) :
  exists r,
    win_rate data = Some r
    /\ ((matches data <= 0)%Z -> r = 0)
    /\ ((0 <= wins data <= matches data)%Z -> 0 <= r <= 100).
Proof.
  unfold win_rate, true_div.
  destruct (Z.gtb_spec (matches data) 0) as [Hpos|Hle].
  - destruct (Z.eqb_spec (matches data) 0) as [H0|_]; [lia|].
    eexists. split; [reflexivity|]. split; [lia|].
    intros [Hw Hm].
    assert (Hm' : 0 < IZR (matches data)) by (apply IZR_lt; lia).
    assert (Hw0 : 0 <= IZR (wins data)) by (apply IZR_le; lia).
    assert (Hwm : IZR (wins data) <= IZR (matches data)) by (now apply IZR_le).
    assert (Hq : 0 <= IZR (wins data) / IZR (matches data) <= 1).
    { split.
      - apply Rmult_le_pos; [exact Hw0|].
        apply Rlt_le, Rinv_0_lt_compat, Hm'.
      - apply Rmult_le_reg_r with (IZR (matches data)); [exact Hm'|].
        unfold Rdiv. rewrite Rmult_assoc, Rinv_l by lra. lra. }
    lra.
  - exists 0. split; [reflexivity|]. split; [reflexivity|]. lra.
Qed.

End TrackerExtras.

(* ================================================================== *)
(** * More about the pairing generator *)

Module PairerExtras.
Import TournamentPairer PairingSpec PairingRanks Display.
Import DictFacts PairerFacts.

Local Open Scope string_scope.
Local Open Scope list_scope.

(** ** The pool by its two ends *)

Lemma pool_of_four (A : Type) (pool : list A) :
  4 <= List.length pool ->
  exists a b mid y z, pool = a :: b :: mid ++ [y; z].
Proof.
  intros Hlen.
  destruct pool as [|a [|b rest]]; simpl in Hlen; try lia.
  destruct (@exists_last _ rest) as (r1 & z & ->).
  { intros ->. simpl in Hlen. lia. }
  rewrite length_app in Hlen. simpl in Hlen.
  destruct (@exists_last _ r1) as (mid & y & ->).
  { intros ->. simpl in Hlen. lia. }
  exists a, b, mid, y, z. now rewrite <- app_assoc.
Qed.

Lemma nth_inner (names : list string) (a b y z : string) (i : nat) :
  i < List.length names ->
  rank_name (a :: b :: names ++ [y; z]) (i + 2) = rank_name names i.
Proof.
  intros Hi. unfold rank_name.
  replace (i + 2) with (S (S i)) by lia. cbn [nth].
  now apply app_nth1.
Qed.

Lemma ranked_pairing_first (names : list string) (a b y z : string) :
  ranked_pairing (a :: b :: names ++ [y; z]) 0
  = if Nat.even (List.length names) then ((a, y), (z, b))
    else ((z, b), (a, y)).
Proof.
  unfold ranked_pairing, rank_name.
  assert (HL : List.length (a :: b :: names ++ [y; z])
               = S (S (List.length names + 2))).
  { cbn [List.length]. rewrite length_app. reflexivity. }
  rewrite HL. cbn [Nat.mul Nat.add nth].
  replace (S (S (List.length names + 2)) - 1 - 0)
    with (S (S (List.length names + 1))) by lia.
  replace (S (S (List.length names + 2)) - 2 - 0)
    with (S (S (List.length names + 0))) by lia.
  cbn [nth].
  rewrite !app_nth2 by lia.
  replace (List.length names + 1 - List.length names) with 1 by lia.
  replace (List.length names + 0 - List.length names) with 0 by lia.
  cbn [nth].
  replace (List.length names + 2) with (S (S (List.length names))) by lia.
  now rewrite !Nat.even_succ_succ.
Qed.

Lemma ranked_pairing_inner (names : list string) (a b y z : string)
    (k : nat) :
  4 * S k <= List.length names ->
  ranked_pairing (a :: b :: names ++ [y; z]) (S k) = ranked_pairing names k.
Proof.
  intros Hk. unfold ranked_pairing.
  assert (HL : List.length (a :: b :: names ++ [y; z])
               = S (S (S (S (List.length names))))).
  { cbn [List.length]. rewrite length_app. simpl. lia. }
  rewrite HL, !Nat.even_succ_succ. cbv zeta.
  replace (2 * S k) with (2 * k + 2) by lia.
  replace (2 * k + 2 + 1) with (2 * k + 1 + 2) by lia.
  replace (S (S (S (S (List.length names)))) - 1 - (2 * k + 2))
    with (List.length names - 1 - 2 * k + 2) by lia.
  replace (S (S (S (S (List.length names)))) - 2 - (2 * k + 2))
    with (List.length names - 2 - 2 * k + 2) by lia.
  rewrite !nth_inner by lia. reflexivity.
Qed.

Lemma middle_inner (A : Type) (a b y z : A) (mid : list A) (n : nat) :
  4 * n <= List.length mid ->
  middle (a :: b :: mid ++ [y; z]) (S n) = middle mid n.
Proof.
  intros Hn. unfold middle.
  replace (2 * S n) with (S (S (2 * n))) by lia. cbn [skipn].
  assert (HL : List.length (a :: b :: mid ++ [y; z])
               = S (S (S (S (List.length mid))))).
  { cbn [List.length]. rewrite length_app. simpl. lia. }
  rewrite HL.
  replace (S (S (S (S (List.length mid)))) - 4 * S n)
    with (List.length mid - 4 * n) by lia.
  rewrite skipn_app, firstn_app, length_skipn.
  replace (List.length mid - 4 * n - (List.length mid - 2 * n)) with 0 by lia.
  cbn [firstn]. now rewrite app_nil_r.
Qed.

Lemma keys_of_four (a b y z : string * Player)
    (mid : list (string * Player)) :
  Dict.keys (a :: b :: mid ++ [y; z])
  = fst a :: fst b :: Dict.keys mid ++ [fst y; fst z].
Proof. unfold Dict.keys. cbn [map]. now rewrite map_app. Qed.

Lemma make_match_ranked (pool : list (string * Player)) :
  4 <= List.length pool ->
  exists a b mid y z,
    pool = a :: b :: mid ++ [y; z]
    /\ make_match pool = Ok (ranked_pairing (Dict.keys pool) 0, mid).
Proof.
  intros Hlen. destruct (pool_of_four pool Hlen) as (a & b & mid & y & z & ->).
  exists a, b, mid, y, z. split; [reflexivity|].
  rewrite keys_of_four, ranked_pairing_first.
  unfold Dict.keys. rewrite length_map.
  destruct (Nat.even (List.length mid)) eqn:Ev.
  - now apply make_match_even.
  - now apply make_match_odd.
Qed.

(** The loop in closed form: the matches by rank, and the middle of the
    pool left over. *)
Lemma pair_matches_ranked (n : nat) :
  forall (pool : list (string * Player)) (acc : list Pairing),
  4 * n <= List.length pool ->
  pair_matches n pool acc
  = Ok (acc ++ map (ranked_pairing (Dict.keys pool)) (seq 0 n),
        middle pool n).
Proof.
  induction n as [|n IH]; intros pool acc Hlen.
  - cbn [pair_matches seq map]. unfold middle. cbn [skipn Nat.mul].
    now rewrite app_nil_r, Nat.sub_0_r, firstn_all.
  - destruct (@make_match_ranked pool) as (a & b & mid & y & z & -> & E);
      [lia|].
    assert (Hmid : 4 * n <= List.length mid).
    { cbn [List.length] in Hlen. rewrite length_app in Hlen.
      simpl in Hlen. lia. }
    cbn [pair_matches]. rewrite E. cbn [bind].
    rewrite (IH mid _ Hmid), (@middle_inner _ a b y z mid n Hmid).
    rewrite <- app_assoc. do 3 f_equal.
    cbn [seq map app]. f_equal.
    rewrite <- seq_shift, map_map. apply map_ext_in.
    intros k Hk. apply in_seq in Hk. rewrite keys_of_four.
    symmetry. apply ranked_pairing_inner.
    unfold Dict.keys. rewrite length_map. lia.
Qed.

(** X12. Who plays with whom, by rank.  With the players ranked by
    descending rating (places from 0) and enough of them for [N] matches,
    match [k] of [generate_pairings] is, when the number of players [L] is
    even, the players at places [2k] and [L-2-2k] against those at places
    [L-1-2k] and [2k+1], and the same with the two teams exchanged when [L]
    is odd; the players left out are those in the middle of the ranking,
    without its first [2N] and its last [2N] places. *)
Theorem generate_pairings_by_rank (players : Players) (n : Z) :
  (4 * n <= Z.of_nat (List.length players))%Z ->
  let ranking := sorted_reverse rating_key players in
  generate_pairings_pool players n
  = Ok (map (ranked_pairing (Dict.keys ranking)) (seq 0 (Z.to_nat n)),
        middle ranking (Z.to_nat n))
  /\ generate_pairings players n
     = Ok (map (ranked_pairing (Dict.keys ranking)) (seq 0 (Z.to_nat n))).
Proof.
  intros Hlen ranking.
  assert (E : generate_pairings_pool players n
    = Ok (map (ranked_pairing (Dict.keys ranking)) (seq 0 (Z.to_nat n)),
          middle ranking (Z.to_nat n))).
  { unfold generate_pairings_pool.
    destruct (Z.ltb_spec (Z.of_nat (List.length players)) (n * 4)); [lia|].
    cbv zeta. fold ranking. rewrite pair_matches_ranked; [reflexivity|].
    unfold ranking. rewrite sorted_reverse_length. lia. }
  split; [exact E|]. unfold generate_pairings. now rewrite E.
Qed.

(** X12 at the eight players: ranks 1 and 7 against 8 and 2, then ranks 3
    and 5 against 6 and 4; nobody is left out. *)
Lemma generate_pairings_by_rank_example :
  (4 * 2 <= Z.of_nat (List.length eight))%Z
  /\ generate_pairings_pool eight 2
     = Ok ([(("P1", "P7"), ("P8", "P2")); (("P3", "P5"), ("P6", "P4"))], []).
Proof.
  assert (Hlen : (4 * 2 <= Z.of_nat (List.length eight))%Z) by (simpl; lia).
  split; [exact Hlen|].
  destruct (@generate_pairings_by_rank eight 2 Hlen) as [E _].
  rewrite (sorted_reverse_fixed rating_key PairerClaims.eight_descending)
    in E.
  exact E.
Defined.

(** ** Which team is the stronger *)

Lemma get_of_item (V : Type) (d : Dict.dict V) (x : string * V) :
  NoDup (Dict.keys d) -> In x d -> Dict.get d (fst x) = Some (snd x).
Proof.
  unfold Dict.keys. induction d as [|[k v] d IH]; intros Hnd Hin;
    [destruct Hin|].
  cbn [map fst] in Hnd. inversion Hnd as [|? ? Hk Hnd']; subst.
  cbn [Dict.get]. destruct Hin as [<-|Hin].
  - cbn [fst snd]. now rewrite String.eqb_refl.
  - assert (Hne : k <> fst x).
    { intros ->. apply Hk. now apply in_map. }
    apply String.eqb_neq in Hne. rewrite Hne. now apply IH.
Qed.

Lemma descending_nth (d : string * Player) (l : list (string * Player)) :
  descending l ->
  forall i j, i <= j -> j < List.length l ->
  (rating_key (nth j l d) <= rating_key (nth i l d))%R.
Proof.
  intros Hs. apply Sorted_StronglySorted in Hs.
  - induction Hs as [|a l Hs IH Hall]; intros i j Hij Hj;
      [simpl in Hj; lia|].
    destruct j as [|j].
    + replace i with 0 by lia. apply Rle_refl.
    + simpl in Hj. destruct i as [|i].
      * cbn [nth]. rewrite Forall_forall in Hall.
        apply Hall, nth_In. lia.
      * cbn [nth]. apply IH; lia.
  - intros x y z Hxy Hyz. lra.
Qed.

(** X13. The stronger team is always on the same side.  With distinct
    names and enough players, every match [generate_pairings] returns has
    both team averages defined (as the menu computes them), and team 1 is
    never the weaker team when the number of players is even, never the
    stronger when it is odd. *)
Theorem first_team_not_weaker (players : Players) (n : Z) :
  (4 * n <= Z.of_nat (List.length players))%Z ->
  NoDup (Dict.keys players) ->
  exists teams,
    generate_pairings players n = Ok teams
    /\ forall team1 team2, In (team1, team2) teams ->
       exists r1 r2,
         team_avg players team1 = Some r1
         /\ team_avg players team2 = Some r2
         /\ if Nat.even (List.length players)
            then (r2 <= r1)%R else (r1 <= r2)%R.
Proof.
  intros Hlen Hnd.
  set (ranking := sorted_reverse rating_key players).
  assert (HL : List.length ranking = List.length players)
    by apply sorted_reverse_length.
  assert (E : generate_pairings players n
    = Ok (map (ranked_pairing (Dict.keys ranking)) (seq 0 (Z.to_nat n)))).
  { unfold generate_pairings, generate_pairings_pool.
    destruct (Z.ltb_spec (Z.of_nat (List.length players)) (n * 4)); [lia|].
    cbv zeta. fold ranking. rewrite pair_matches_ranked; [reflexivity|lia]. }
  eexists. split; [exact E|].
  intros team1 team2 Hin. apply in_map_iff in Hin.
  destruct Hin as (k & Hk & Hin). apply in_seq in Hin.
  assert (Hk4 : 4 * S k <= List.length ranking) by lia.
  set (d := (EmptyString, mkPlayer 0 0 0)).
  assert (Hname : forall i, rank_name (Dict.keys ranking) i
                            = fst (nth i ranking d)).
  { intros i. unfold rank_name, Dict.keys.
    change EmptyString with (fst d). apply map_nth. }
  assert (Hget : forall i, i < List.length ranking ->
            Dict.get players (fst (nth i ranking d))
            = Some (snd (nth i ranking d))).
  { intros i Hi. apply get_of_item; [exact Hnd|].
    eapply Permutation_in; [apply sorted_reverse_perm|].
    now apply nth_In. }
  assert (Hdesc : forall i j, i <= j -> j < List.length ranking ->
            (rating (snd (nth j ranking d))
             <= rating (snd (nth i ranking d)))%R).
  { intros i j Hij Hj.
    apply (@descending_nth d ranking (sorted_reverse_sorted _ _) i j Hij Hj). }
  unfold ranked_pairing in Hk. cbv zeta in Hk. rewrite !Hname in Hk.
  unfold Dict.keys in Hk. rewrite length_map in Hk. rewrite <- HL.
  assert (H1 := Hdesc (2 * k) (2 * k + 1) ltac:(lia) ltac:(lia)).
  assert (H2 := Hdesc (List.length ranking - 2 - 2 * k)
                      (List.length ranking - 1 - 2 * k)
                      ltac:(lia) ltac:(lia)).
  cbn [Nat.mul] in H1, H2.
  destruct (Nat.even (List.length ranking));
    injection Hk as <- <-;
    unfold team_avg; cbn [fst snd];
    rewrite !Hget by lia;
    eexists _, _; (split; [reflexivity|]); (split; [reflexivity|]); lra.
Qed.

(** X13 at the eight players and two matches. *)
Lemma first_team_not_weaker_example :
  (4 * 2 <= Z.of_nat (List.length eight))%Z
  /\ NoDup (Dict.keys eight)
  /\ exists teams,
    generate_pairings eight 2 = Ok teams
    /\ forall team1 team2, In (team1, team2) teams ->
       exists r1 r2,
         team_avg eight team1 = Some r1
         /\ team_avg eight team2 = Some r2
         /\ if Nat.even (List.length eight)
            then (r2 <= r1)%R else (r1 <= r2)%R.
Proof.
  assert (Hlen : (4 * 2 <= Z.of_nat (List.length eight))%Z) by (simpl; lia).
  split; [exact Hlen|]. split; [exact PairerClaims.eight_distinct|].
  exact (@first_team_not_weaker eight 2 Hlen PairerClaims.eight_distinct).
Defined.

(** ** Nobody plays twice *)

(** X14. For any number of players that is enough (names being distinct),
    [generate_pairings] returns the number of matches asked for, no player
    is in two teams or in two matches, every player drawn is a player of
    the snapshot, and the players drawn and the players left in the pool
    are together the players of the snapshot. *)
Theorem generate_pairings_nobody_twice (players : Players) (n : Z) :
  (4 * n <= Z.of_nat (List.length players))%Z ->
  NoDup (Dict.keys players) ->
  exists teams pool',
    generate_pairings_pool players n = Ok (teams, pool')
    /\ generate_pairings players n = Ok teams
    /\ List.length teams = Z.to_nat n
    /\ NoDup (drawn_players teams)
    /\ Forall teams_disjoint teams
    /\ incl (drawn_players teams) (Dict.keys players)
    /\ Permutation (drawn_players teams ++ Dict.keys pool')
                   (Dict.keys players)
    /\ List.length players = 4 * Z.to_nat n + List.length pool'.
Proof.
  intros Hlen Hnd.
  destruct (@PairerClaims.generate_pairings_pool_ok players n Hlen)
    as (teams & pool' & E & _ & L & P & Lp).
  assert (Hnd' : NoDup (drawn_players teams ++ Dict.keys pool')).
  { eapply Permutation_NoDup; eassumption. }
  assert (Hd : NoDup (drawn_players teams))
    by (eapply NoDup_app_remove_r, Hnd').
  exists teams, pool'. split; [exact E|].
  split; [eapply PairerClaims.generate_pairings_of_pool, E|].
  split; [exact L|]. split; [exact Hd|]. split; [|split; [|split]].
  - apply PairerClaims.NoDup_flat_map_each in Hd.
    eapply Forall_impl; [|exact Hd].
    intros m. apply PairerClaims.pairing_players_disjoint.
  - intros p Hp. eapply Permutation_in; [apply Permutation_sym, P|].
    apply in_or_app. now left.
  - now apply Permutation_sym.
  - exact Lp.
Qed.

(** X14 at the eight players and one match: four players are left. *)
Lemma generate_pairings_nobody_twice_example :
  (4 * 1 <= Z.of_nat (List.length eight))%Z
  /\ NoDup (Dict.keys eight)
  /\ exists teams pool',
    generate_pairings_pool eight 1 = Ok (teams, pool')
    /\ List.length teams = 1
    /\ NoDup (drawn_players teams)
    /\ incl (drawn_players teams) (Dict.keys eight)
    /\ List.length eight = 4 + List.length pool'.
Proof.
  assert (Hlen : (4 * 1 <= Z.of_nat (List.length eight))%Z) by (simpl; lia).
  split; [exact Hlen|]. split; [exact PairerClaims.eight_distinct|].
  destruct (@generate_pairings_nobody_twice eight 1 Hlen
              PairerClaims.eight_distinct)
    as (teams & pool' & E & _ & L & Hd & _ & Hi & _ & Lp).
  exists teams, pool'. split; [exact E|]. split; [exact L|].
  split; [exact Hd|]. split; [exact Hi|exact Lp].
Defined.

(** ** The order of the snapshot *)





(** ** The pairer after the tracker *)



End PairerExtras.

(* ================================================================== *)
(** * Facts about the binary64 store *)

Module Binary64Facts.
Import PrimFloat FloatOps SpecFloat FloatAxioms.
Import Binary64 Binary64Spec DictFacts.

Local Open Scope string_scope.
Local Open Scope list_scope.

(** ** Float arithmetic *)

(** Taking a float off is adding its opposite. *)
Lemma sub_is_add_opp (x y : float) : (x - y = x + - y)%float.
Proof.
  apply Prim2SF_inj. rewrite sub_spec, add_spec, opp_spec.
  unfold SF64sub, SF64add.
  destruct (Prim2SF x) as [sx|sx| |sx mx ex],
           (Prim2SF y) as [sy|sy| |sy my ey];
    try reflexivity; destruct sx, sy; reflexivity.
Qed.

Lemma plus_units_0_r (u : option Z) : plus_units u (Some 0%Z) = u.
Proof. destruct u as [u|]; simpl; [f_equal; lia|reflexivity]. Qed.

(** ** The loops over player names *)

Lemma for_each_returns (f : Player -> Player) (names : list string) :
  forall ps : Players,
  (forall p, In p names -> Dict.mem ps p = true) ->
  exists ps', for_each names f ps = Returned ps'.
Proof.
  induction names as [|q names IH]; intros ps Hin; simpl.
  - eauto.
  - destruct (@modify_some _ ps q f) as [ps1 E]; [apply Hin; now left|].
    rewrite E. apply IH. intros p Hp.
    unfold Dict.modify in E. destruct (Dict.get ps q); [|discriminate].
    inversion E; subst. apply mem_set, Hin. now right.
Qed.

(** A name listed [n] times has [f] applied [n] times to its entry. *)
Lemma for_each_entry (f : Player -> Player) (names : list string) :
  forall (ps ps' : Players), for_each names f ps = Returned ps' ->
  forall p, Dict.get ps' p =
    option_map (Nat.iter (count_occ string_dec names p) f) (Dict.get ps p).
Proof.
  induction names as [|q names IH]; intros ps ps' H p; cbn [for_each] in H.
  - inversion H; subst. now destruct (Dict.get ps' p).
  - destruct (Dict.modify ps q f) as [ps1|] eqn:E; [|discriminate].
    rewrite (IH _ _ H p), (@get_modify _ ps ps1 q p f E).
    cbn [count_occ].
    destruct (string_dec q p) as [->|Hne]; [|reflexivity].
    destruct (Dict.get ps p); cbn [option_map]; [|reflexivity].
    now rewrite Nat.iter_succ_r.
Qed.

Lemma for_each_names (f : Player -> Player) (names : list string) :
  forall (ps ps' : Players), for_each names f ps = Returned ps' ->
  Dict.keys ps' = Dict.keys ps.
Proof.
  induction names as [|q names IH]; intros ps ps' H; simpl in *.
  - now inversion H.
  - destruct (Dict.modify ps q f) as [ps1|] eqn:E; [|discriminate].
    rewrite (IH _ _ H). unfold Dict.modify in E.
    destruct (Dict.get ps q) eqn:G; [|discriminate]. inversion E; subst.
    apply keys_set_present. unfold Dict.mem. now rewrite G.
Qed.

Lemma for_each_member (f : Player -> Player) (names : list string)
    (ps ps' : Players) (p : string) :
  for_each names f ps = Returned ps' -> Dict.mem ps' p = Dict.mem ps p.
Proof.
  intros H. unfold Dict.mem. rewrite (@for_each_entry f names ps ps' H p).
  now destruct (Dict.get ps p).
Qed.

Lemma iter_matches (n : nat) (pl : Player) :
  Nat.iter n (add_matches 1) pl = add_matches (Z.of_nat n) pl.
Proof.
  induction n as [|n IH].
  - destruct pl; unfold add_matches; simpl. f_equal. lia.
  - rewrite Nat.iter_succ, IH. unfold add_matches; simpl. f_equal. lia.
Qed.

Lemma iter_wins (n : nat) (pl : Player) :
  Nat.iter n (add_wins 1) pl = add_wins (Z.of_nat n) pl.
Proof.
  induction n as [|n IH].
  - destruct pl; unfold add_wins; simpl. f_equal. lia.
  - rewrite Nat.iter_succ, IH. unfold add_wins; simpl. f_equal. lia.
Qed.

(** A loop over the ratings is a loop over the players' ratings only. *)
Lemma iter_rating (g : float -> float) (f : Player -> Player) (n : nat)
    (pl : Player) :
  (forall q, f q = mkPlayer (g (rating q)) (matches q) (wins q)) ->
  Nat.iter n f pl = mkPlayer (Nat.iter n g (rating pl)) (matches pl) (wins pl).
Proof.
  intros Hf. induction n as [|n IH].
  - now destruct pl.
  - rewrite !Nat.iter_succ, IH, Hf. reflexivity.
Qed.

(** ** The sum of the ratings *)

Lemma plus_units_assoc (u : option Z) (x y : Z) :
  plus_units (plus_units u (Some x)) (Some y) = plus_units u (Some (x + y)%Z).
Proof. destruct u as [u|]; simpl; [f_equal; lia|reflexivity]. Qed.

(** An entry whose rating moves by [d] units, without rounding, moves the
    sum by [d] units. *)
Lemma total_units_set (ps : Players) (k : string) (old v : Player) (d : Z) :
  Dict.get ps k = Some old ->
  units (rating v) = plus_units (units (rating old)) (Some d) ->
  total_units (Dict.set ps k v) = plus_units (total_units ps) (Some d).
Proof.
  intros G Hv. revert G.
  induction ps as [|[k' v'] ps IH]; simpl; [discriminate|].
  destruct (String.eqb k' k) eqn:E; simpl.
  - intros H; inversion H; subst. rewrite Hv.
    destruct (units (rating old)), (total_units ps); simpl;
      try reflexivity. f_equal. lia.
  - intros H. rewrite (IH H).
    destruct (units (rating v')), (total_units ps); simpl;
      try reflexivity. f_equal. lia.
Qed.

(** A loop that leaves the ratings alone leaves their sum alone. *)
Lemma total_units_for_each_same (f : Player -> Player) (names : list string) :
  (forall pl, rating (f pl) = rating pl) ->
  forall (ps ps' : Players), for_each names f ps = Returned ps' ->
  total_units ps' = total_units ps.
Proof.
  intros Hf. induction names as [|q names IH]; intros ps ps' H.
  - simpl in H. now inversion H.
  - cbn [for_each] in H. unfold Dict.modify in H.
    destruct (Dict.get ps q) as [old|] eqn:G; [|discriminate].
    rewrite (IH _ _ H), (@total_units_set ps q old (f old) 0 G).
    + apply plus_units_0_r.
    + now rewrite Hf, plus_units_0_r.
Qed.

(** A loop over different names that moves each rating it meets by [d]
    units, without rounding, moves the sum by [d] units for each name. *)
Lemma total_units_for_each (f : Player -> Player) (d : Z)
    (names : list string) :
  NoDup names ->
  forall (ps ps' : Players),
  (forall p pl, In p names -> Dict.get ps p = Some pl ->
     units (rating (f pl)) = plus_units (units (rating pl)) (Some d)) ->
  for_each names f ps = Returned ps' ->
  total_units ps' =
    plus_units (total_units ps) (Some (Z.of_nat (List.length names) * d)%Z).
Proof.
  induction 1 as [|q names Hq Hnd IH]; intros ps ps' Hf H.
  - simpl in H. inversion H; subst. simpl. now rewrite plus_units_0_r.
  - cbn [for_each] in H. unfold Dict.modify in H.
    destruct (Dict.get ps q) as [old|] eqn:G; [|discriminate].
    assert (Hrest : forall p pl, In p names ->
              Dict.get (Dict.set ps q (f old)) p = Some pl ->
              units (rating (f pl)) = plus_units (units (rating pl)) (Some d)).
    { intros p pl Hp. rewrite get_set_other by (intros ->; contradiction).
      apply Hf. now right. }
    rewrite (IH _ _ Hrest H).
    rewrite (@total_units_set ps q old (f old) d G)
      by (apply (Hf q old); [now left|exact G]).
    rewrite plus_units_assoc. f_equal. f_equal.
    change (List.length (q :: names)) with (S (List.length names)). lia.
Qed.

(** ** The team ratings *)

Lemma sum_ratings_same (ps ps' : Players) (names : list string) :
  (forall p, In p names ->
     option_map rating (Dict.get ps p) = option_map rating (Dict.get ps' p)) ->
  forall acc, sum_ratings ps names acc = sum_ratings ps' names acc.
Proof.
  induction names as [|q names IH]; intros Hext acc; simpl; [reflexivity|].
  assert (Hq := Hext q (or_introl eq_refl)).
  destruct (Dict.get ps q) as [x|], (Dict.get ps' q) as [y|];
    simpl in Hq; try discriminate; [|reflexivity].
  inversion Hq as [Hr]. rewrite Hr. apply IH.
  intros p Hp. apply Hext. now right.
Qed.

Lemma sum_ratings_value (ps : Players) (names : list string) :
  (forall p, In p names -> Dict.mem ps p = true) ->
  forall acc, exists total, sum_ratings ps names acc = Value total.
Proof.
  induction names as [|q names IH]; intros Hin acc; simpl; [eauto|].
  assert (Hq := Hin q (or_introl eq_refl)).
  apply mem_true_iff in Hq. destruct Hq as [v ->].
  apply IH. intros p Hp. apply Hin. now right.
Qed.

Lemma team_rating_value (ps : Players) (team : list string) :
  (forall p, In p team -> Dict.mem ps p = true) ->
  exists r, team_rating ps team = Value r.
Proof.
  intros Hin. unfold team_rating.
  destruct (@sum_ratings_value ps team Hin 0%float) as [total ->]. eauto.
Qed.

Section LibmFacts.
Variable pow : libm_pow.

(** [10 ** x] raises nothing but [OverflowError]. *)
Lemma ten_to_the_raises (x : float) (e : exception) :
  ten_to_the pow x = Raises e -> e = OverflowError.
Proof.
  unfold ten_to_the.
  destruct (x =? 0)%float; [discriminate|].
  destruct (is_nan x); [discriminate|].
  destruct (is_infinity x); [discriminate|].
  destruct (pow 10%float x) as [ix erange].
  destruct (if erange then negb (ix =? 0)%float else is_infinity ix);
    [|discriminate].
  intros H; now inversion H.
Qed.

(** The expected score raises [OverflowError] in [10 ** x], or
    [ZeroDivisionError] in the division. *)
Lemma rating_change_of_raises (r1 r2 : float) (won : bool) (e : exception) :
  rating_change_of pow r1 r2 won = Raises e ->
  e = OverflowError \/ e = ZeroDivisionError.
Proof.
  unfold rating_change_of, expected_team1, truediv.
  destruct (ten_to_the pow ((r2 - r1) / 400)) as [power|e'] eqn:E.
  - destruct (1 + power =? 0)%float; [|discriminate].
    intros H; inversion H; now right.
  - intros H; inversion H; subst. left. exact (ten_to_the_raises _ E).
Qed.

Lemma rating_change_same (ps ps' : Players) (team1 team2 : list string)
    (won : bool) :
  (forall p, option_map rating (Dict.get ps p)
             = option_map rating (Dict.get ps' p)) ->
  rating_change pow ps team1 team2 won = rating_change pow ps' team1 team2 won.
Proof.
  intros Hext. unfold rating_change, team_rating.
  rewrite (@sum_ratings_same ps ps' team1), (@sum_ratings_same ps ps' team2);
    auto.
Qed.

(** With the members of both teams in the store there is no [KeyError]. *)
Lemma rating_change_raises (ps : Players) (team1 team2 : list string)
    (won : bool) (e : exception) :
  (forall p, In p (team1 ++ team2) -> Dict.mem ps p = true) ->
  rating_change pow ps team1 team2 won = Raises e ->
  e = OverflowError \/ e = ZeroDivisionError.
Proof.
  intros Hin. unfold rating_change.
  destruct (@team_rating_value ps team1) as [r1 ->].
  { intros p Hp. apply Hin, in_or_app. now left. }
  destruct (@team_rating_value ps team2) as [r2 ->].
  { intros p Hp. apply Hin, in_or_app. now right. }
  apply rating_change_of_raises.
Qed.

(** ** The rating update *)

(** With the members of both teams in the store: when the rating change is
    computed the two loops run to their end, and every rating is moved as
    [moved] says; when its computation raises, nothing is written. *)
Lemma update_ratings_run (ps : Players) (team1 team2 : list string)
    (won : bool) :
  (forall p, In p (team1 ++ team2) -> Dict.mem ps p = true) ->
  match rating_change pow ps team1 team2 won with
  | Value change =>
      exists ps',
        update_ratings pow ps team1 team2 won = Returned ps'
        /\ (forall p, Dict.get ps' p =
              option_map
                (fun pl => mkPlayer (moved change team1 team2 p (rating pl))
                                    (matches pl) (wins pl))
                (Dict.get ps p))
        /\ Dict.keys ps' = Dict.keys ps
  | Raises e => update_ratings pow ps team1 team2 won = Raised e ps
  end.
Proof.
  intros Hin. unfold update_ratings.
  destruct (rating_change pow ps team1 team2 won) as [change|e];
    [|reflexivity].
  destruct (@for_each_returns (add_rating change) team1 ps) as [ps1 E1].
  { intros p Hp. apply Hin, in_or_app. now left. }
  destruct (@for_each_returns (sub_rating change) team2 ps1) as [ps2 E2].
  { intros p Hp. rewrite (for_each_member _ _ _ p E1).
    apply Hin, in_or_app. now right. }
  exists ps2. rewrite E1. split; [exact E2|]. split.
  - intros p. rewrite (for_each_entry _ _ _ E2 p), (for_each_entry _ _ _ E1 p).
    destruct (Dict.get ps p) as [pl|]; cbn [option_map]; [|reflexivity].
    rewrite (@iter_rating (fun r => r + change)%float (add_rating change))
      by reflexivity.
    rewrite (@iter_rating (fun r => r - change)%float (sub_rating change))
      by reflexivity.
    reflexivity.
  - now rewrite (for_each_names _ _ _ E2), (for_each_names _ _ _ E1).
Qed.

(** Between teams of different players, with a finite rating change and
    no rounding in any of the [+=] and [-=]: the sum of the ratings moves by
    the change for every member of team 1 and back for every member of
    team 2. *)
Lemma update_ratings_total (ps ps' : Players) (team1 team2 : list string)
    (won : bool) (change : float) (uc : Z) :
  rating_change pow ps team1 team2 won = Value change ->
  update_ratings pow ps team1 team2 won = Returned ps' ->
  NoDup (team1 ++ team2) ->
  units change = Some uc ->
  (forall p pl, In p team1 -> Dict.get ps p = Some pl ->
     exact_add (rating pl) change) ->
  (forall p pl, In p team2 -> Dict.get ps p = Some pl ->
     exact_sub (rating pl) change) ->
  total_units ps' =
    plus_units (total_units ps)
      (Some ((Z.of_nat (List.length team1) - Z.of_nat (List.length team2))
             * uc)%Z).
Proof.
  intros Hc E Hnd Hu H1 H2. unfold update_ratings in E. rewrite Hc in E.
  destruct (for_each team1 (add_rating change) ps) as [ps1|e ps1] eqn:E1.
  2:{ destruct team2; discriminate. }
  rewrite (@total_units_for_each (sub_rating change) (- uc) team2
             (NoDup_app_remove_l _ _ Hnd) ps1 ps').
  - rewrite (@total_units_for_each (add_rating change) uc team1
               (NoDup_app_remove_r _ _ Hnd) ps ps1).
    + rewrite plus_units_assoc. f_equal. f_equal. lia.
    + intros p pl Hp G. cbn [add_rating rating].
      rewrite (H1 p pl Hp G), Hu. reflexivity.
    + exact E1.
  - intros p pl Hp G. cbn [sub_rating rating].
    assert (H0 : count_occ string_dec team1 p = 0%nat).
    { assert (Ha := proj1 (NoDup_count_occ' string_dec (team1 ++ team2)) Hnd p
                      (in_or_app _ _ _ (or_intror Hp))).
      rewrite count_occ_app in Ha.
      assert (Hb := proj1 (NoDup_count_occ' string_dec team2)
                      (NoDup_app_remove_l _ _ Hnd) p Hp).
      lia. }
    rewrite (for_each_entry _ _ _ E1 p), H0 in G.
    destruct (Dict.get ps p) as [pl0|] eqn:G0; [|discriminate].
    simpl in G. inversion G; subst pl0.
    rewrite (H2 p pl Hp G0), Hu. reflexivity.
  - exact E.
Qed.

End LibmFacts.

(** ** Adding the players of a match *)

Lemma add_player_absent (t : Tracker) (name : string) :
  Dict.mem (self_players t) name = false ->
  add_player t name =
    (save_data (set_players t (Dict.set (self_players t) name new_player)),
     true).
Proof. intros H. unfold add_player. now rewrite H. Qed.

Lemma add_player_present (t : Tracker) (name : string) :
  Dict.mem (self_players t) name = true -> add_player t name = (t, false).
Proof. intros H. unfold add_player. now rewrite H. Qed.

Lemma in_cons_dec (p q : string) (names : list string) :
  q <> p ->
  (if in_dec string_dec p (q :: names) then true else false)
  = (if in_dec string_dec p names then true else false).
Proof.
  intros Hne.
  destruct (in_dec string_dec p names) as [i|n],
           (in_dec string_dec p (q :: names)) as [i'|n'];
    try reflexivity; exfalso.
  - apply n'. now right.
  - destruct i'; [congruence|contradiction].
Qed.

Lemma ensure_players_entry (names : list string) : forall (t : Tracker) p,
  Dict.get (self_players (ensure_players names t)) p =
    match Dict.get (self_players t) p with
    | Some pl => Some pl
    | None => if in_dec string_dec p names then Some new_player else None
    end.
Proof.
  induction names as [|q names IH]; intros t p; cbn [ensure_players].
  - destruct (Dict.get (self_players t) p); [reflexivity|].
    now destruct (in_dec string_dec p []).
  - destruct (Dict.mem (self_players t) q) eqn:M; cbn [negb].
    + rewrite IH. destruct (Dict.get (self_players t) p) eqn:G; [reflexivity|].
      assert (Hne : q <> p).
      { intros ->. apply mem_true_iff in M. destruct M. congruence. }
      assert (H := in_cons_dec names Hne).
      destruct (in_dec string_dec p names), (in_dec string_dec p (q :: names));
        (reflexivity || discriminate).
    + rewrite IH, (add_player_absent _ _ M). cbn [fst save_data self_players
        set_players].
      destruct (string_dec q p) as [->|Hne].
      * rewrite get_set_same. apply mem_false_iff in M. rewrite M.
        destruct (in_dec string_dec p (p :: names)) as [|n];
          [reflexivity|]. exfalso. apply n. now left.
      * rewrite (get_set_other _ _ Hne).
        destruct (Dict.get (self_players t) p); [reflexivity|].
        assert (H := in_cons_dec names Hne).
        destruct (in_dec string_dec p names),
                 (in_dec string_dec p (q :: names));
          (reflexivity || discriminate).
Qed.

Lemma ensure_players_before (names : list string) (t : Tracker) (p : string) :
  In p names ->
  Dict.get (self_players (ensure_players names t)) p = Some (stats_before t p).
Proof.
  intros Hin. rewrite ensure_players_entry. unfold stats_before.
  destruct (Dict.get (self_players t) p); [reflexivity|].
  destruct (in_dec string_dec p names); [reflexivity|contradiction].
Qed.

Lemma ensure_players_other (names : list string) (t : Tracker) (p : string) :
  ~ In p names ->
  Dict.get (self_players (ensure_players names t)) p
  = Dict.get (self_players t) p.
Proof.
  intros Hin. rewrite ensure_players_entry.
  destruct (Dict.get (self_players t) p); [reflexivity|].
  destruct (in_dec string_dec p names); [contradiction|reflexivity].
Qed.

Lemma ensure_players_member (names : list string) (t : Tracker) (p : string) :
  In p names -> Dict.mem (self_players (ensure_players names t)) p = true.
Proof.
  intros Hin. unfold Dict.mem.
  now rewrite (@ensure_players_before names t p Hin).
Qed.

Lemma ensure_players_history (names : list string) : forall t : Tracker,
  self_matches (ensure_players names t) = self_matches t.
Proof.
  induction names as [|q names IH]; intros t; cbn [ensure_players];
    [reflexivity|].
  destruct (Dict.mem (self_players t) q) eqn:M; cbn [negb]; rewrite IH;
    [reflexivity|].
  now rewrite (add_player_absent _ _ M).
Qed.

(** The first loop of [record_match]: the names it adds come after the
    names the store had, each once; they are the names of the match the
    store did not have; each costs one write of the file.  With nobody to
    add the tracker and its file are left alone. *)
Lemma ensure_players_appended (names : list string) : forall t : Tracker,
  exists added,
    Dict.keys (self_players (ensure_players names t))
      = Dict.keys (self_players t) ++ added
    /\ NoDup added
    /\ (forall p, In p added <->
          In p names /\ Dict.mem (self_players t) p = false)
    /\ writes (ensure_players names t) = (writes t + List.length added)%nat
    /\ (added = [] -> ensure_players names t = t).
Proof.
  induction names as [|q names IH]; intros t; cbn [ensure_players].
  - exists []. rewrite app_nil_r. simpl. repeat split; try tauto.
    + constructor.
    + lia.
  - destruct (Dict.mem (self_players t) q) eqn:M; cbn [negb].
    + destruct (IH t) as (added & Hk & Hnd & Hin & Hw & Hid).
      exists added. split; [exact Hk|]. split; [exact Hnd|].
      split; [|split; [exact Hw|exact Hid]].
      intros p. rewrite Hin. simpl. split; [tauto|].
      intros [[->|Hp] Hm]; [congruence|tauto].
    + rewrite (add_player_absent _ _ M). cbn [fst].
      destruct (IH (save_data
                      (set_players t (Dict.set (self_players t) q new_player))))
        as (added & Hk & Hnd & Hin & Hw & _).
      cbn [save_data set_players self_players writes] in *.
      assert (Hq : ~ In q added).
      { intros Hq. apply Hin in Hq. destruct Hq as [_ Hq].
        now rewrite mem_set_same in Hq. }
      assert (Hmem : forall p, p <> q ->
                Dict.mem (Dict.set (self_players t) q new_player) p
                = Dict.mem (self_players t) p).
      { intros p Hp. unfold Dict.mem. rewrite get_set_other; congruence. }
      exists (q :: added). split; [|split; [|split; [|split]]].
      * rewrite Hk, (@keys_set_absent _ (self_players t) q new_player M),
          <- app_assoc. reflexivity.
      * now constructor.
      * intros p. simpl. rewrite Hin. split.
        -- intros [<-|[Hp Hm]]; [tauto|].
           split; [tauto|]. destruct (string_dec p q) as [->|Hne].
           ++ exact M.
           ++ now rewrite <- (Hmem p Hne).
        -- intros [[->|Hp] Hm]; [tauto|].
           destruct (string_dec q p) as [->|Hne]; [tauto|].
           right. split; [exact Hp|]. rewrite Hmem; congruence.
      * rewrite Hw. simpl. lia.
      * discriminate.
Qed.

(** ** Recording a match *)

Section Recording.
Variable pow : libm_pow.

(** [record_match] from beginning to end.  The players of the match are
    added, the match is appended and the two counting loops run; then
    either the rating change is computed, the ratings are moved, the store
    is written and [record_match] returns; or its computation raises, and
    [record_match] raises with it, leaving the counters in memory and the
    file as it was once the players were added. *)
Lemma record_match_run (t : Tracker) (team1 team2 : list string)
    (score1 score2 : Z) (now : Datetime.datetime) :
  let t0 := ensure_players (team1 ++ team2) t in
  let won := (score1 >? score2)%Z in
  let ms := self_matches t
            ++ [BadmintonTracker.mkMatch now team1 team2 score1 score2] in
  exists ps1,
    (forall p, Dict.get ps1 p =
       option_map (counted team1 team2 won p) (Dict.get (self_players t0) p))
    /\ Dict.keys ps1 = Dict.keys (self_players t0)
    /\ total_units ps1 = total_units (self_players t0)
    /\ rating_change pow ps1 team1 team2 won
       = rating_change pow (self_players t0) team1 team2 won
    /\ match rating_change pow (self_players t0) team1 team2 won with
       | Value change =>
           exists ps2,
             record_match pow t team1 team2 score1 score2 now
             = Returned (save_data (mkTracker ps2 ms (file t0) (writes t0)))
             /\ update_ratings pow ps1 team1 team2 won = Returned ps2
             /\ (forall p, Dict.get ps2 p =
                   option_map
                     (fun pl =>
                        mkPlayer (moved change team1 team2 p (rating pl))
                                 (matches pl) (wins pl))
                     (Dict.get ps1 p))
             /\ Dict.keys ps2 = Dict.keys ps1
       | Raises e =>
           record_match pow t team1 team2 score1 score2 now
           = Raised e (mkTracker ps1 ms (file t0) (writes t0))
           /\ (e = OverflowError \/ e = ZeroDivisionError)
       end.
Proof.
  intros t0 won ms.
  assert (Hin : forall p, In p (team1 ++ team2) ->
                          Dict.mem (self_players t0) p = true).
  { intros p Hp. now apply ensure_players_member. }
  destruct (@for_each_returns (add_matches 1) (team1 ++ team2)
              (self_players t0) Hin) as [psm E1].
  destruct (@for_each_returns (add_wins 1) (if won then team1 else team2) psm)
    as [ps1 E2].
  { intros p Hp. rewrite (for_each_member _ _ _ p E1). apply Hin, in_or_app.
    destruct won; auto. }
  assert (Hin1 : forall p, In p (team1 ++ team2) -> Dict.mem ps1 p = true).
  { intros p Hp.
    rewrite (for_each_member _ _ _ p E2), (for_each_member _ _ _ p E1).
    now apply Hin. }
  assert (G1 : forall p, Dict.get ps1 p =
             option_map (counted team1 team2 won p)
                        (Dict.get (self_players t0) p)).
  { intros p. rewrite (for_each_entry _ _ _ E2 p), (for_each_entry _ _ _ E1 p).
    destruct (Dict.get (self_players t0) p); simpl; [|reflexivity].
    now rewrite iter_matches, iter_wins. }
  assert (Ec : rating_change pow ps1 team1 team2 won
               = rating_change pow (self_players t0) team1 team2 won).
  { apply rating_change_same. intros p. rewrite G1.
    now destruct (Dict.get (self_players t0) p). }
  exists ps1. split; [exact G1|]. split.
  { now rewrite (for_each_names _ _ _ E2), (for_each_names _ _ _ E1). }
  split.
  { rewrite (@total_units_for_each_same (add_wins 1) _ (fun pl => eq_refl)
               _ _ E2).
    exact (@total_units_for_each_same (add_matches 1) _ (fun pl => eq_refl)
             _ _ E1). }
  split; [exact Ec|].
  assert (Hm : self_matches t0 = self_matches t)
    by apply ensure_players_history.
  assert (U := @update_ratings_run pow ps1 team1 team2 won Hin1).
  assert (Hr := @rating_change_raises pow ps1 team1 team2 won).
  rewrite Ec in U, Hr.
  unfold record_match. fold t0. fold won.
  cbn [set_matches self_players]. rewrite E1, E2.
  destruct (rating_change pow (self_players t0) team1 team2 won)
    as [change|e].
  - destruct U as (ps2 & E3 & G3 & K3). exists ps2. rewrite E3.
    unfold set_players. cbn [self_matches file writes]. rewrite Hm.
    split; [reflexivity|]. split; [reflexivity|].
    split; [exact G3|exact K3].
  - rewrite U. unfold set_players. cbn [self_matches file writes].
    rewrite Hm. split; [reflexivity|]. exact (Hr e Hin1 eq_refl).
Qed.

(** The state [record_match] leaves, whether it returns or raises. *)
Lemma record_match_state (t : Tracker) (team1 team2 : list string)
    (score1 score2 : Z) (now : Datetime.datetime) :
  let t0 := ensure_players (team1 ++ team2) t in
  let won := (score1 >? score2)%Z in
  let outcome := record_match pow t team1 team2 score1 score2 now in
  let t' := state_of outcome in
  self_matches t'
  = self_matches t ++ [BadmintonTracker.mkMatch now team1 team2 score1 score2]
  /\ Dict.keys (self_players t') = Dict.keys (self_players t0)
  /\ match rating_change pow (self_players t0) team1 team2 won with
     | Value change =>
         outcome = Returned t'
         /\ (forall p, Dict.get (self_players t') p =
               option_map (stats_after change team1 team2 won p)
                          (Dict.get (self_players t0) p))
         /\ file t' =
              Some (mkData (self_players t')
                      (BadmintonTracker.dump_matches (self_matches t') []))
         /\ writes t' = S (writes t0)
     | Raises e =>
         outcome = Raised e t'
         /\ (e = OverflowError \/ e = ZeroDivisionError)
         /\ (forall p, Dict.get (self_players t') p =
               option_map (counted team1 team2 won p)
                          (Dict.get (self_players t0) p))
         /\ file t' = file t0
         /\ writes t' = writes t0
     end.
Proof.
  intros t0 won outcome t'. subst outcome t'.
  destruct (record_match_run t team1 team2 score1 score2 now)
    as (ps1 & G1 & K1 & _ & _ & Hrun).
  fold t0 in G1, K1, Hrun. fold won in G1, Hrun.
  destruct (rating_change pow (self_players t0) team1 team2 won)
    as [change|e].
  - destruct Hrun as (ps2 & E & _ & G2 & K2). rewrite E.
    cbn [state_of save_data self_matches self_players file writes].
    split; [reflexivity|]. split; [now rewrite K2, K1|].
    split; [reflexivity|]. split; [|split; reflexivity].
    intros p. rewrite G2, G1.
    now destruct (Dict.get (self_players t0) p).
  - destruct Hrun as (E & He). rewrite E.
    cbn [state_of self_matches self_players file writes].
    split; [reflexivity|]. split; [exact K1|].
    split; [reflexivity|]. split; [exact He|].
    split; [exact G1|]. split; reflexivity.
Qed.

(** Between teams of different players, with a finite rating change and
    no rounding in the [+=] and [-=] of the match: the sum of the ratings
    moves by the change for every member of team 1 and back for every
    member of team 2. *)
Lemma record_match_total (t : Tracker) (team1 team2 : list string)
    (score1 score2 : Z) (now : Datetime.datetime) (change : float) (uc : Z) :
  let t0 := ensure_players (team1 ++ team2) t in
  let t' := state_of (record_match pow t team1 team2 score1 score2 now) in
  rating_change pow (self_players t0) team1 team2 (score1 >? score2)%Z
  = Value change ->
  NoDup (team1 ++ team2) ->
  units change = Some uc ->
  (forall p, In p team1 -> exact_add (rating (stats_before t p)) change) ->
  (forall p, In p team2 -> exact_sub (rating (stats_before t p)) change) ->
  total_units (self_players t') =
    plus_units (total_units (self_players t0))
      (Some ((Z.of_nat (List.length team1) - Z.of_nat (List.length team2))
             * uc)%Z).
Proof.
  intros t0 t' Hc Hnd Hu H1 H2. subst t'.
  destruct (record_match_run t team1 team2 score1 score2 now)
    as (ps1 & G1 & _ & T1 & Ec & Hrun).
  fold t0 in G1, T1, Ec, Hrun. rewrite Hc in Hrun, Ec.
  destruct Hrun as (ps2 & E & U & _). rewrite E.
  cbn [state_of save_data self_players]. rewrite <- T1.
  assert (Hr : forall p pl, In p (team1 ++ team2) ->
            Dict.get ps1 p = Some pl -> rating pl = rating (stats_before t p)).
  { intros p pl Hp G. rewrite G1 in G. unfold t0 in G.
    rewrite (@ensure_players_before (team1 ++ team2) t p Hp) in G.
    simpl in G. inversion G. reflexivity. }
  apply (@update_ratings_total pow ps1 ps2 team1 team2 _ change uc Ec U Hnd Hu).
  - intros p pl Hp G.
    rewrite (Hr p pl (in_or_app _ _ _ (or_introl Hp)) G). now apply H1.
  - intros p pl Hp G.
    rewrite (Hr p pl (in_or_app _ _ _ (or_intror Hp)) G). now apply H2.
Qed.

End Recording.

End Binary64Facts.

(* ================================================================== *)
(** * Claims about the match recorder, on the binary64 store *)

Module RecordClaims.
Import PrimFloat Binary64 Binary64Spec DictFacts Binary64Facts.

Local Open Scope string_scope.
Local Open Scope list_scope.

(** ** The counters *)

(** The counters of the state [record_match] leaves, returned or raised. *)
Lemma counters_after (pow : libm_pow) (t : Tracker)
    (team1 team2 : list string) (score1 score2 : Z)
    (now : Datetime.datetime) (p : string) :
  let t0 := ensure_players (team1 ++ team2) t in
  let t' := state_of (record_match pow t team1 team2 score1 score2 now) in
  let winners := if (score1 >? score2)%Z then team1 else team2 in
  option_map matches (Dict.get (self_players t') p)
  = option_map
      (fun pl => matches pl + Z.of_nat (TrackerSpec.slots (team1 ++ team2) p))%Z
      (Dict.get (self_players t0) p)
  /\ option_map wins (Dict.get (self_players t') p)
     = option_map
         (fun pl => wins pl + Z.of_nat (TrackerSpec.slots winners p))%Z
         (Dict.get (self_players t0) p).
Proof.
  intros t0 t' winners. subst t' winners.
  destruct (record_match_state pow t team1 team2 score1 score2 now)
    as (_ & _ & H).
  fold t0 in H.
  destruct (rating_change pow (self_players t0) team1 team2
              (score1 >? score2)%Z) as [change|e].
  - destruct H as (_ & G & _). rewrite G.
    now destruct (Dict.get (self_players t0) p).
  - destruct H as (_ & _ & G & _). rewrite G.
    now destruct (Dict.get (self_players t0) p).
Qed.

(** C6 (as amended). In the state [record_match] leaves (also when the
    rating update raises, which it does after the counters are written)
    every participant has one match more for every place filled, and one
    win more for every place filled in the winning team, which is team 1
    when its score is strictly greater and team 2 otherwise; the other
    players keep their counters.  With four different participants each
    has exactly one match more, each member of the winning team exactly one
    win more, and the wins of the other team are what they were.  When
    [record_match] returns, the file holds these counters. *)
Theorem record_match_counts_places (pow : libm_pow) (t : Tracker)
    (a b c d : string) (score1 score2 : Z) (now : Datetime.datetime) :
  let outcome := record_match pow t [a; b] [c; d] score1 score2 now in
  let t' := state_of outcome in
  let winners := if (score1 >? score2)%Z then [a; b] else [c; d] in
  let losers := if (score1 >? score2)%Z then [c; d] else [a; b] in
  (forall p, In p [a; b; c; d] ->
     option_map matches (Dict.get (self_players t') p)
     = Some (matches (stats_before t p)
             + Z.of_nat (TrackerSpec.slots [a; b; c; d] p))%Z
     /\ option_map wins (Dict.get (self_players t') p)
        = Some (wins (stats_before t p)
                + Z.of_nat (TrackerSpec.slots winners p))%Z)
  /\ (forall p, ~ In p [a; b; c; d] ->
        option_map matches (Dict.get (self_players t') p)
        = option_map matches (Dict.get (self_players t) p)
        /\ option_map wins (Dict.get (self_players t') p)
           = option_map wins (Dict.get (self_players t) p))
  /\ (NoDup [a; b; c; d] ->
        (forall p, In p [a; b; c; d] ->
           option_map matches (Dict.get (self_players t') p)
           = Some (matches (stats_before t p) + 1)%Z)
        /\ (forall p, In p winners ->
              option_map wins (Dict.get (self_players t') p)
              = Some (wins (stats_before t p) + 1)%Z)
        /\ (forall p, In p losers ->
              option_map wins (Dict.get (self_players t') p)
              = Some (wins (stats_before t p))))
  /\ (raised outcome = None ->
        file t'
        = Some (mkData (self_players t')
                  (BadmintonTracker.dump_matches (self_matches t') []))).
Proof.
  intros outcome t' winners losers.
  assert (Hc := fun p =>
    counters_after pow t [a; b] [c; d] score1 score2 now p).
  cbv zeta in Hc. fold outcome in Hc. fold t' in Hc. fold winners in Hc.
  change ([a; b] ++ [c; d]) with [a; b; c; d] in Hc.
  assert (Hin : forall p, In p [a; b; c; d] ->
            option_map matches (Dict.get (self_players t') p)
            = Some (matches (stats_before t p)
                    + Z.of_nat (TrackerSpec.slots [a; b; c; d] p))%Z
            /\ option_map wins (Dict.get (self_players t') p)
               = Some (wins (stats_before t p)
                       + Z.of_nat (TrackerSpec.slots winners p))%Z).
  { intros p Hp. destruct (Hc p) as [Hm Hw]. rewrite Hm, Hw.
    now rewrite (@ensure_players_before [a; b; c; d] t p Hp). }
  split; [exact Hin|]. split; [|split].
  - intros p Hp. destruct (Hc p) as [Hm Hw]. rewrite Hm, Hw.
    rewrite (@ensure_players_other [a; b; c; d] t p Hp).
    assert (H0 : TrackerSpec.slots [a; b; c; d] p = 0%nat)
      by now apply TrackerClaims.slots_outside.
    assert (H1 : TrackerSpec.slots winners p = 0%nat).
    { apply TrackerClaims.slots_outside. intros Hw'. apply Hp.
      unfold winners in Hw'. destruct (score1 >? score2)%Z; simpl in *; tauto. }
    rewrite H0, H1.
    destruct (Dict.get (self_players t) p); simpl; split;
      try reflexivity; f_equal; lia.
  - intros Hnd.
    assert (H12 : forall p, In p [a; b] ->
              TrackerSpec.slots [a; b] p = 1%nat
              /\ TrackerSpec.slots [c; d] p = 0%nat).
    { intros p Hp. now apply TrackerClaims.slots_team1. }
    assert (H34 : forall p, In p [c; d] ->
              TrackerSpec.slots [a; b] p = 0%nat
              /\ TrackerSpec.slots [c; d] p = 1%nat).
    { intros p Hp. now apply TrackerClaims.slots_team2. }
    split; [|split].
    + intros p Hp. rewrite (proj1 (Hin p Hp)).
      change [a; b; c; d] with ([a; b] ++ [c; d]).
      rewrite TrackerClaims.slots_app.
      assert (In p [a; b] \/ In p [c; d]) as [H1|H2] by (simpl in *; tauto).
      * destruct (H12 p H1) as [-> ->]. reflexivity.
      * destruct (H34 p H2) as [-> ->]. reflexivity.
    + intros p Hp. unfold winners in *.
      destruct (score1 >? score2)%Z.
      * rewrite (proj2 (Hin p ltac:(simpl in *; tauto))).
        destruct (H12 p Hp) as [-> _]. reflexivity.
      * rewrite (proj2 (Hin p ltac:(simpl in *; tauto))).
        destruct (H34 p Hp) as [_ ->]. reflexivity.
    + intros p Hp. unfold winners, losers in *.
      destruct (score1 >? score2)%Z.
      * rewrite (proj2 (Hin p ltac:(simpl in *; tauto))).
        destruct (H34 p Hp) as [-> _]. f_equal. simpl. lia.
      * rewrite (proj2 (Hin p ltac:(simpl in *; tauto))).
        destruct (H12 p Hp) as [_ ->]. f_equal. simpl. lia.
  - intros Hr. subst t'.
    destruct (record_match_state pow t [a; b] [c; d] score1 score2 now)
      as (_ & _ & H).
    fold outcome in H.
    destruct (rating_change pow
                (self_players (ensure_players ([a; b] ++ [c; d]) t))
                [a; b] [c; d] (score1 >? score2)%Z) as [change|e].
    + now destruct H as (_ & _ & F & _).
    + destruct H as (E & _). rewrite E in Hr. discriminate.
Qed.

(** C6 at four new players and the scores 21 to 15, whatever the C
    library: everybody has one match, A and B have one win, C and D none,
    and the match is recorded. *)
Lemma record_match_counts_places_example :
  NoDup ["A"; "B"; "C"; "D"]
  /\ forall pow : libm_pow,
     let outcome :=
       record_match pow fresh ["A"; "B"] ["C"; "D"] 21 15 TrackerSpec.stamp in
     raised outcome = None
     /\ (forall p, In p ["A"; "B"; "C"; "D"] ->
           option_map matches (Dict.get (self_players (state_of outcome)) p)
           = Some (matches (stats_before fresh p) + 1)%Z)
     /\ (forall p, In p ["A"; "B"] ->
           option_map wins (Dict.get (self_players (state_of outcome)) p)
           = Some (wins (stats_before fresh p) + 1)%Z)
     /\ (forall p, In p ["C"; "D"] ->
           option_map wins (Dict.get (self_players (state_of outcome)) p)
           = Some (wins (stats_before fresh p))).
Proof.
  assert (Hnd : NoDup ["A"; "B"; "C"; "D"]).
  { distinct_names. }
  split; [exact Hnd|]. intros pow outcome.
  destruct (record_match_counts_places pow fresh "A" "B" "C" "D" 21 15
              TrackerSpec.stamp) as (_ & _ & Hd & _).
  destruct (Hd Hnd) as (Hm & Hw & Hl).
  split; [reflexivity|]. split; [exact Hm|]. split; [exact Hw|exact Hl].
Defined.

(** C6, the claim as first stated fails: a player who fills both places of
    team 1 comes to the match with no match and no win and leaves it with
    two of each, whatever the C library. *)
Lemma repeated_participant_counted_twice :
  matches (stats_before fresh "A") = 0%Z
  /\ wins (stats_before fresh "A") = 0%Z
  /\ forall pow : libm_pow,
     let outcome :=
       record_match pow fresh ["A"; "A"] ["C"; "D"] 21 15 TrackerSpec.stamp in
     raised outcome = None
     /\ Dict.get (self_players (state_of outcome)) "A"
        = Some (mkPlayer 1532%float 2 2)
     /\ (2 <> 0 + 1)%Z.
Proof.
  split; [reflexivity|]. split; [reflexivity|]. intros pow outcome.
  split; [reflexivity|]. split; [reflexivity|]. lia.
Qed.

(** ** The ratings *)

(** The ratings of the state [record_match] leaves: moved when the rating
    change was computed and [record_match] returned, untouched when its
    computation raised. *)
Lemma ratings_after (pow : libm_pow) (t : Tracker)
    (team1 team2 : list string) (score1 score2 : Z)
    (now : Datetime.datetime) :
  let t0 := ensure_players (team1 ++ team2) t in
  let outcome := record_match pow t team1 team2 score1 score2 now in
  let t' := state_of outcome in
  match rating_change pow (self_players t0) team1 team2 (score1 >? score2)%Z
  with
  | Value change =>
      raised outcome = None
      /\ forall p,
           option_map rating (Dict.get (self_players t') p)
           = option_map (fun pl => moved change team1 team2 p (rating pl))
                        (Dict.get (self_players t0) p)
  | Raises e =>
      raised outcome = Some e
      /\ forall p,
           option_map rating (Dict.get (self_players t') p)
           = option_map rating (Dict.get (self_players t0) p)
  end.
Proof.
  intros t0 outcome t'. subst t'.
  destruct (record_match_state pow t team1 team2 score1 score2 now)
    as (_ & _ & H).
  fold t0 in H. fold outcome in H.
  destruct (rating_change pow (self_players t0) team1 team2
              (score1 >? score2)%Z) as [change|e].
  - destruct H as (E & G & _). split; [now rewrite E|].
    intros p. rewrite G. now destruct (Dict.get (self_players t0) p).
  - destruct H as (E & _ & G & _). split; [now rewrite E|].
    intros p. rewrite G. now destruct (Dict.get (self_players t0) p).
Qed.

(** With four different players a member of team 1 has the change added
    once, a member of team 2 has it taken off once, and the rating of
    anybody else stays. *)
Lemma moved_distinct (change : float) (a b c d p : string) (r : float) :
  NoDup [a; b; c; d] ->
  (In p [a; b] -> moved change [a; b] [c; d] p r = (r + change)%float)
  /\ (In p [c; d] -> moved change [a; b] [c; d] p r = (r - change)%float)
  /\ (~ In p [a; b; c; d] -> moved change [a; b] [c; d] p r = r).
Proof.
  intros Hnd. unfold moved. split; [|split]; intros Hp.
  - destruct (@TrackerClaims.slots_team1 [a; b] [c; d] p Hnd Hp) as [-> ->].
    reflexivity.
  - destruct (@TrackerClaims.slots_team2 [a; b] [c; d] p Hnd Hp) as [-> ->].
    reflexivity.
  - rewrite (@TrackerClaims.slots_outside [a; b] p),
      (@TrackerClaims.slots_outside [c; d] p); [reflexivity| |];
      intros Hin; apply Hp; simpl in *; tauto.
Qed.

(** C2 (as amended). [record_match] returns when the rating change is
    computed, and raises, leaving every rating alone, when its computation
    raises.  When it returns, one and the same change has been applied with
    opposite signs: added to a player's rating once for every place filled
    in team 1 and taken off, which is adding its opposite, once for every
    place filled in team 2, each time as a float operation.  With four
    different players the rating of a member of team 1 is the float sum of
    the rating and the change, that of a member of team 2 the float
    difference, and nobody else moves; and when the change is finite and
    none of these four operations is rounded, the sum of all ratings is
    what it was once the players of the match were in the store. *)
Theorem rating_update_equal_and_opposite (pow : libm_pow) (t : Tracker)
    (a b c d : string) (score1 score2 : Z) (now : Datetime.datetime) :
  let t0 := ensure_players [a; b; c; d] t in
  let outcome := record_match pow t [a; b] [c; d] score1 score2 now in
  let t' := state_of outcome in
  let won := (score1 >? score2)%Z in
  (forall e,
     rating_change pow (self_players t0) [a; b] [c; d] won = Raises e ->
     raised outcome = Some e
     /\ forall p, option_map rating (Dict.get (self_players t') p)
                  = option_map rating (Dict.get (self_players t0) p))
  /\ (forall change,
        rating_change pow (self_players t0) [a; b] [c; d] won = Value change ->
        raised outcome = None
        /\ (forall r, r - change = r + - change)%float
        /\ (forall p,
              option_map rating (Dict.get (self_players t') p)
              = option_map
                  (fun pl => moved change [a; b] [c; d] p (rating pl))
                  (Dict.get (self_players t0) p))
        /\ (NoDup [a; b; c; d] ->
              (forall p, In p [a; b] ->
                 option_map rating (Dict.get (self_players t') p)
                 = Some (rating (stats_before t p) + change)%float)
              /\ (forall p, In p [c; d] ->
                    option_map rating (Dict.get (self_players t') p)
                    = Some (rating (stats_before t p) - change)%float)
              /\ (forall p, ~ In p [a; b; c; d] ->
                    option_map rating (Dict.get (self_players t') p)
                    = option_map rating (Dict.get (self_players t) p))
              /\ (finite change ->
                  (forall p, In p [a; b] ->
                     exact_add (rating (stats_before t p)) change) ->
                  (forall p, In p [c; d] ->
                     exact_sub (rating (stats_before t p)) change) ->
                  total_units (self_players t')
                  = total_units (self_players t0)))).
Proof.
  intros t0 outcome t' won.
  assert (H := ratings_after pow t [a; b] [c; d] score1 score2 now).
  cbv zeta in H. change ([a; b] ++ [c; d]) with [a; b; c; d] in H.
  fold t0 in H. fold outcome in H. fold t' in H. fold won in H.
  split.
  - intros e He. rewrite He in H. exact H.
  - intros change Hc. rewrite Hc in H. destruct H as [Hr G].
    split; [exact Hr|]. split; [intros r; apply sub_is_add_opp|].
    split; [exact G|]. intros Hnd.
    split; [|split; [|split]].
    + intros p Hp. rewrite G. unfold t0.
      rewrite (@ensure_players_before [a; b; c; d] t p)
        by (simpl in *; tauto).
      cbn [option_map].
      now rewrite (proj1 (moved_distinct change p _ Hnd) Hp).
    + intros p Hp. rewrite G. unfold t0.
      rewrite (@ensure_players_before [a; b; c; d] t p)
        by (simpl in *; tauto).
      cbn [option_map].
      now rewrite (proj1 (proj2 (moved_distinct change p _ Hnd)) Hp).
    + intros p Hp. rewrite G. unfold t0.
      rewrite (@ensure_players_other [a; b; c; d] t p Hp).
      destruct (Dict.get (self_players t) p) as [pl|]; [|reflexivity].
      cbn [option_map].
      now rewrite (proj2 (proj2 (moved_distinct change p (rating pl) Hnd)) Hp).
    + intros Hf H1 H2. unfold finite in Hf.
      destruct (units change) as [uc|] eqn:Hu; [|congruence].
      assert (T := @record_match_total pow t [a; b] [c; d] score1 score2 now
                     change uc Hc Hnd Hu H1 H2).
      cbv zeta in T. fold outcome in T. fold t' in T.
      change ([a; b] ++ [c; d]) with [a; b; c; d] in T. fold t0 in T.
      rewrite T. simpl. apply plus_units_0_r.
Qed.

(** C2 at four new players and the scores 21 to 15, whatever the C
    library: the change is 16, A and B go from 1500 to 1516, C and D to
    1484, nothing is rounded and the sum of the ratings stays. *)
Lemma rating_update_equal_and_opposite_example :
  NoDup ["A"; "B"; "C"; "D"]
  /\ finite 16
  /\ exact_add 1500 16 /\ exact_sub 1500 16
  /\ forall pow : libm_pow,
     let t0 := ensure_players ["A"; "B"; "C"; "D"] fresh in
     let outcome :=
       record_match pow fresh ["A"; "B"] ["C"; "D"] 21 15 TrackerSpec.stamp in
     rating_change pow (self_players t0) ["A"; "B"] ["C"; "D"] true
     = Value 16%float
     /\ raised outcome = None
     /\ (forall p, In p ["A"; "B"] ->
           option_map rating (Dict.get (self_players (state_of outcome)) p)
           = Some 1516%float)
     /\ (forall p, In p ["C"; "D"] ->
           option_map rating (Dict.get (self_players (state_of outcome)) p)
           = Some 1484%float)
     /\ total_units (self_players (state_of outcome))
        = total_units (self_players t0).
Proof.
  assert (Hnd : NoDup ["A"; "B"; "C"; "D"]).
  { distinct_names. }
  assert (Hf : finite 16) by (vm_compute; discriminate).
  assert (Ha : exact_add 1500 16) by (vm_compute; reflexivity).
  assert (Hs : exact_sub 1500 16) by (vm_compute; reflexivity).
  split; [exact Hnd|]. split; [exact Hf|]. split; [exact Ha|].
  split; [exact Hs|]. intros pow. cbv zeta.
  assert (Hc : rating_change pow
                 (self_players (ensure_players ["A"; "B"; "C"; "D"] fresh))
                 ["A"; "B"] ["C"; "D"] true
               = Value 16%float) by reflexivity.
  destruct (rating_update_equal_and_opposite pow fresh "A" "B" "C" "D" 21 15
              TrackerSpec.stamp) as [_ H].
  destruct (H 16%float Hc) as (Hr & _ & _ & Hd).
  destruct (Hd Hnd) as (H1 & H2 & _ & HT).
  split; [exact Hc|]. split; [exact Hr|]. split; [|split].
  - intros p Hp. rewrite (H1 p Hp).
    simpl in Hp. destruct Hp as [<-|[<-|[]]]; reflexivity.
  - intros p Hp. rewrite (H2 p Hp).
    simpl in Hp. destruct Hp as [<-|[<-|[]]]; reflexivity.
  - apply (HT Hf).
    + intros p Hp. simpl in Hp. destruct Hp as [<-|[<-|[]]]; exact Ha.
    + intros p Hp. simpl in Hp. destruct Hp as [<-|[<-|[]]]; exact Hs.
Defined.

(** C2, the claim as first stated fails: between four different players
    rated 2047.3, team 1 winning, the change is 16; the rating of A becomes
    2063.3000000000002, which is 16.000000000000227 above 2047.3, while that
    of C goes down by 16 exactly; and the sum of the four ratings is [2^-41]
    ([2^1033] units) more than it was.  This is so whatever the C library. *)
Lemma rounding_moves_the_sum :
  NoDup ["A"; "B"; "C"; "D"]
  /\ forall pow : libm_pow,
     let t := mkTracker four_at_2047_3 [] None 0 in
     let outcome :=
       record_match pow t ["A"; "B"] ["C"; "D"] 21 15 TrackerSpec.stamp in
     rating_change pow four_at_2047_3 ["A"; "B"] ["C"; "D"] true
     = Value 16%float
     /\ raised outcome = None
     /\ option_map rating (Dict.get (self_players (state_of outcome)) "A")
        = Some 0x1.01e999999999ap+11%float
     /\ (0x1.01e999999999ap+11 - 0x1.ffd3333333333p+10
         = 0x1.000000000004p+4)%float
     /\ option_map rating (Dict.get (self_players (state_of outcome)) "C")
        = Some (0x1.ffd3333333333p+10 - 16)%float
     /\ exact_sub 0x1.ffd3333333333p+10 16
     /\ ~ exact_add 0x1.ffd3333333333p+10 16
     /\ total_units (self_players (state_of outcome))
        = plus_units (total_units four_at_2047_3) (Some (2 ^ 1033)%Z).
Proof.
  split; [distinct_names|]. intros pow t outcome.
  split; [reflexivity|]. split; [reflexivity|]. split; [reflexivity|].
  split; [reflexivity|]. split; [reflexivity|].
  split; [vm_compute; reflexivity|].
  split; [vm_compute; discriminate|].
  vm_compute. reflexivity.
Qed.

(** ** Ties *)

(** The rating change of a match team 1 did not win is [32 * (0 - e)], for
    the expected score [e] of team 1. *)
Lemma rating_change_lost (pow : libm_pow) (ps : Players)
    (team1 team2 : list string) :
  (forall p, In p (team1 ++ team2) -> Dict.mem ps p = true) ->
  exists r1 r2,
    team_rating ps team1 = Value r1 /\ team_rating ps team2 = Value r2
    /\ rating_change pow ps team1 team2 false
       = match expected_team1 pow r1 r2 with
         | Value e => Value (32 * (0 - e))%float
         | Raises x => Raises x
         end.
Proof.
  intros Hin. unfold rating_change.
  destruct (@team_rating_value ps team1) as [r1 E1].
  { intros p Hp. apply Hin, in_or_app. now left. }
  destruct (@team_rating_value ps team2) as [r2 E2].
  { intros p Hp. apply Hin, in_or_app. now right. }
  exists r1, r2. rewrite E1, E2. split; [reflexivity|].
  split; [reflexivity|]. unfold rating_change_of.
  now destruct (expected_team1 pow r1 r2).
Qed.

(** C7 (as amended). With equal scores team 1 did not win.  In the state
    [record_match] leaves, every place of team 2 has earned its player a
    win and no place of team 1 has; with four different players each member
    of team 2 has exactly one win more and the wins of team 1 are what they
    were.  The rating change is that of a lost match, [32 * (0 - e)] for the
    expected score [e] of team 1: when it is computed [record_match] returns
    with it added once for every place filled in team 1 and taken off once
    for every place filled in team 2, each time as a float operation (with
    four different players: the float sum of rating and change for a member
    of team 1, the float difference for a member of team 2); when its
    computation raises, [record_match] raises and the ratings stay. *)
Theorem tie_counts_for_team2 (pow : libm_pow) (t : Tracker)
    (a b c d : string) (score : Z) (now : Datetime.datetime) :
  let t0 := ensure_players [a; b; c; d] t in
  let outcome := record_match pow t [a; b] [c; d] score score now in
  let t' := state_of outcome in
  (score >? score)%Z = false
  /\ (forall p, In p [a; b; c; d] ->
        option_map wins (Dict.get (self_players t') p)
        = Some (wins (stats_before t p)
                + Z.of_nat (TrackerSpec.slots [c; d] p))%Z)
  /\ (NoDup [a; b; c; d] ->
        (forall p, In p [c; d] ->
           option_map wins (Dict.get (self_players t') p)
           = Some (wins (stats_before t p) + 1)%Z)
        /\ (forall p, In p [a; b] ->
              option_map wins (Dict.get (self_players t') p)
              = Some (wins (stats_before t p))))
  /\ exists r1 r2,
       team_rating (self_players t0) [a; b] = Value r1
       /\ team_rating (self_players t0) [c; d] = Value r2
       /\ (forall x, expected_team1 pow r1 r2 = Raises x ->
             raised outcome = Some x
             /\ forall p, option_map rating (Dict.get (self_players t') p)
                          = option_map rating (Dict.get (self_players t0) p))
       /\ (forall e, expected_team1 pow r1 r2 = Value e ->
             let change := (32 * (0 - e))%float in
             raised outcome = None
             /\ (forall p,
                   option_map rating (Dict.get (self_players t') p)
                   = option_map
                       (fun pl => moved change [a; b] [c; d] p (rating pl))
                       (Dict.get (self_players t0) p))
             /\ (NoDup [a; b; c; d] ->
                   (forall p, In p [a; b] ->
                      option_map rating (Dict.get (self_players t') p)
                      = Some (rating (stats_before t p) + change)%float)
                   /\ (forall p, In p [c; d] ->
                         option_map rating (Dict.get (self_players t') p)
                         = Some (rating (stats_before t p) - change)%float))).
Proof.
  intros t0 outcome t'.
  assert (Hf : (score >? score)%Z = false)
    by (rewrite Z.gtb_ltb; apply Z.ltb_irrefl).
  assert (Hw : forall p, In p [a; b; c; d] ->
            option_map wins (Dict.get (self_players t') p)
            = Some (wins (stats_before t p)
                    + Z.of_nat (TrackerSpec.slots [c; d] p))%Z).
  { intros p Hp.
    destruct (counters_after pow t [a; b] [c; d] score score now p)
      as [_ H].
    rewrite Hf in H. fold outcome in H. fold t' in H. rewrite H.
    change ([a; b] ++ [c; d]) with [a; b; c; d].
    now rewrite (@ensure_players_before [a; b; c; d] t p Hp). }
  split; [exact Hf|]. split; [exact Hw|]. split.
  { intros Hnd. split.
    - intros p Hp. rewrite (Hw p) by (simpl in *; tauto).
      destruct (@TrackerClaims.slots_team2 [a; b] [c; d] p Hnd Hp) as [_ ->].
      reflexivity.
    - intros p Hp. rewrite (Hw p) by (simpl in *; tauto).
      destruct (@TrackerClaims.slots_team1 [a; b] [c; d] p Hnd Hp) as [_ ->].
      f_equal. simpl. lia. }
  destruct (@rating_change_lost pow (self_players t0) [a; b] [c; d])
    as (r1 & r2 & T1 & T2 & Hc).
  { intros p Hp. unfold t0. now apply ensure_players_member. }
  assert (H := ratings_after pow t [a; b] [c; d] score score now).
  cbv zeta in H. change ([a; b] ++ [c; d]) with [a; b; c; d] in H.
  fold t0 in H. fold outcome in H. fold t' in H. rewrite Hf, Hc in H.
  exists r1, r2. split; [exact T1|]. split; [exact T2|]. split.
  - intros x Hx. rewrite Hx in H. exact H.
  - intros e He change. rewrite He in H. fold change in H.
    destruct H as [Hr G]. split; [exact Hr|]. split; [exact G|].
    intros Hnd. split.
    + intros p Hp. rewrite G. unfold t0.
      rewrite (@ensure_players_before [a; b; c; d] t p)
        by (simpl in *; tauto).
      cbn [option_map].
      now rewrite (proj1 (moved_distinct change p _ Hnd) Hp).
    + intros p Hp. rewrite G. unfold t0.
      rewrite (@ensure_players_before [a; b; c; d] t p)
        by (simpl in *; tauto).
      cbn [option_map].
      now rewrite (proj1 (proj2 (moved_distinct change p _ Hnd)) Hp).
Qed.

(** C7 at four new players and the scores 21 to 21, whatever the C
    library: C and D have one win, A and B none; the expected score is one
    half, the change is -16, and A and B are rated 1500 + -16. *)
Lemma tie_counts_for_team2_example :
  NoDup ["A"; "B"; "C"; "D"]
  /\ forall pow : libm_pow,
     let outcome :=
       record_match pow fresh ["A"; "B"] ["C"; "D"] 21 21 TrackerSpec.stamp in
     expected_team1 pow 1500 1500 = Value 0.5%float
     /\ (32 * (0 - 0.5) = -16)%float
     /\ raised outcome = None
     /\ (forall p, In p ["C"; "D"] ->
           option_map wins (Dict.get (self_players (state_of outcome)) p)
           = Some (wins (stats_before fresh p) + 1)%Z)
     /\ (forall p, In p ["A"; "B"] ->
           option_map wins (Dict.get (self_players (state_of outcome)) p)
           = Some (wins (stats_before fresh p))
           /\ option_map rating (Dict.get (self_players (state_of outcome)) p)
              = Some (rating (stats_before fresh p) + -16)%float).
Proof.
  assert (Hnd : NoDup ["A"; "B"; "C"; "D"]).
  { distinct_names. }
  split; [exact Hnd|]. intros pow. cbv zeta.
  assert (He : expected_team1 pow 1500 1500 = Value 0.5%float)
    by reflexivity.
  destruct (tie_counts_for_team2 pow fresh "A" "B" "C" "D" 21
              TrackerSpec.stamp)
    as (_ & _ & Hw & r1 & r2 & T1 & T2 & _ & Hv).
  assert (r1 = 1500%float) as -> by (vm_compute in T1; now inversion T1).
  assert (r2 = 1500%float) as -> by (vm_compute in T2; now inversion T2).
  destruct (Hv _ He) as (Hr & _ & Hd).
  destruct (Hw Hnd) as [Hw2 Hw1]. destruct (Hd Hnd) as [Hr1 _].
  split; [exact He|]. split; [reflexivity|]. split; [exact Hr|].
  split; [exact Hw2|].
  intros p Hp. split; [exact (Hw1 p Hp)|]. exact (Hr1 p Hp).
Defined.

(** C7, the claim as first stated fails: in a tie with one player in both
    places of team 2, that player, new to the store, ends with two wins,
    whatever the C library. *)
Lemma tie_repeated_player_two_wins :
  wins (stats_before fresh "C") = 0%Z
  /\ forall pow : libm_pow,
     let outcome :=
       record_match pow fresh ["A"; "B"] ["C"; "C"] 21 21 TrackerSpec.stamp in
     raised outcome = None
     /\ option_map wins (Dict.get (self_players (state_of outcome)) "C")
        = Some 2%Z
     /\ (2 <> 0 + 1)%Z.
Proof.
  split; [reflexivity|]. intros pow outcome.
  split; [reflexivity|]. split; [reflexivity|]. lia.
Qed.

End RecordClaims.

(* ================================================================== *)
(** * More about the match recorder, on the binary64 store *)

Module RecordExtras.
Import PrimFloat Binary64 Binary64Spec DictFacts Binary64Facts.

Local Open Scope string_scope.
Local Open Scope list_scope.

(** ** Returning and raising *)

(** X1. [record_match] raises no [KeyError], whatever the teams and whether
    or not their players are known: it returns exactly when the rating
    change is computed, and otherwise raises what that computation raises,
    [OverflowError] in [10 ** x] or [ZeroDivisionError].  Either way the
    match is appended to [self.matches], the players the store had stay
    where they were and each unknown participant is appended once.  When it
    returns, the file was written once for each of them and once more at the
    end and holds the snapshot in memory.  When it raises, the last write
    was the one for the last player added (none, and the file is untouched,
    when there was nobody to add): the match, its counters and every rating
    are as before in the file, and the ratings in memory too. *)
Theorem record_match_returns_or_raises (pow : libm_pow) (t : Tracker)
    (team1 team2 : list string) (score1 score2 : Z)
    (now : Datetime.datetime) :
  let t0 := ensure_players (team1 ++ team2) t in
  let outcome := record_match pow t team1 team2 score1 score2 now in
  let t' := state_of outcome in
  exists added,
    (raised outcome = None \/ raised outcome = Some OverflowError
     \/ raised outcome = Some ZeroDivisionError)
    /\ (raised outcome = None <->
        exists change,
          rating_change pow (self_players t0) team1 team2 (score1 >? score2)%Z
          = Value change)
    /\ self_matches t'
       = self_matches t
         ++ [BadmintonTracker.mkMatch now team1 team2 score1 score2]
    /\ Dict.keys (self_players t') = Dict.keys (self_players t) ++ added
    /\ NoDup added
    /\ (forall p, In p added <->
          In p (team1 ++ team2) /\ Dict.mem (self_players t) p = false)
    /\ (raised outcome = None ->
          writes t' = (writes t + List.length added + 1)%nat
          /\ file t' = Some (mkData (self_players t')
                               (BadmintonTracker.dump_matches
                                  (self_matches t') [])))
    /\ (raised outcome <> None ->
          writes t' = (writes t + List.length added)%nat
          /\ file t' = file t0
          /\ (added = [] -> file t' = file t)
          /\ forall p, option_map rating (Dict.get (self_players t') p)
                       = option_map rating (Dict.get (self_players t0) p)).
Proof.
  intros t0 outcome t'.
  destruct (record_match_state pow t team1 team2 score1 score2 now)
    as (M & Hk & H).
  fold t0 in Hk, H. fold outcome in M, Hk, H. fold t' in M, Hk, H.
  destruct (ensure_players_appended (team1 ++ team2) t)
    as (added & Hk0 & Hnd & Hin & Hw0 & Hid).
  fold t0 in Hk0, Hw0, Hid.
  exists added.
  destruct (rating_change pow (self_players t0) team1 team2
              (score1 >? score2)%Z) as [change|e].
  - destruct H as (E & _ & F & Hw). rewrite E. cbn [raised].
    split; [now left|]. split; [split; eauto|].
    split; [exact M|]. split; [now rewrite Hk, Hk0|].
    split; [exact Hnd|]. split; [exact Hin|]. split; [|congruence].
    intros _. split; [rewrite Hw, Hw0; lia|exact F].
  - destruct H as (E & He & G & F & Hw). rewrite E. cbn [raised].
    split; [destruct He as [->| ->]; tauto|].
    split; [split; [discriminate|intros [change Hc]; discriminate]|].
    split; [exact M|]. split; [now rewrite Hk, Hk0|].
    split; [exact Hnd|]. split; [exact Hin|]. split; [discriminate|].
    intros _. split; [now rewrite Hw, Hw0|]. split; [exact F|].
    split; [intros Ha; now rewrite F, (Hid Ha)|].
    intros p. rewrite G. now destruct (Dict.get (self_players t0) p).
Qed.

(** ** Recording through the menu *)

(** X18. The "Record Match" entry of the menu calls [record_match] exactly
    when the store has at least four players and holds the four names given
    (which may repeat) and both scores are integers; otherwise it prints one
    of its three refusals and changes nothing.  The call creates no player.
    When the rating change is computed the match is recorded: the names of
    the store are what they were, the match is appended and the file is
    written exactly once, with the snapshot in memory.  When its computation
    raises ([OverflowError] in [10 ** x], or [ZeroDivisionError]) the
    [except ValueError] of the entry does not catch it: the exception leaves
    [main] with the file as it was, without the match. *)
Theorem menu_record_match_adds_nobody (pow : libm_pow) (tracker : Tracker)
    (player1 player2 player3 player4 : string) (score1 score2 : option Z)
    (now : Datetime.datetime) :
  let outcome :=
    menu_record_match pow tracker player1 player2 player3 player4
      score1 score2 now in
  let called :=
    (4 <= List.length (self_players tracker))%nat
    /\ (forall p, In p [player1; player2; player3; player4] ->
          Dict.mem (self_players tracker) p = true)
    /\ score1 <> None /\ score2 <> None in
  (~ called ->
     outcome = NotEnoughPlayers \/ outcome = PlayersNotFound
     \/ outcome = InvalidScores)
  /\ (called ->
      exists s1 s2 tracker',
        score1 = Some s1 /\ score2 = Some s2
        /\ Dict.keys (self_players tracker')
           = Dict.keys (self_players tracker)
        /\ self_matches tracker'
           = self_matches tracker
             ++ [BadmintonTracker.mkMatch now [player1; player2]
                   [player3; player4] s1 s2]
        /\ match rating_change pow (self_players tracker)
                   [player1; player2] [player3; player4] (s1 >? s2)%Z with
           | Value _ =>
               outcome = MatchRecorded tracker'
               /\ writes tracker' = S (writes tracker)
               /\ file tracker'
                  = Some (mkData (self_players tracker')
                            (BadmintonTracker.dump_matches
                               (self_matches tracker') []))
           | Raises e =>
               outcome = Uncaught e tracker'
               /\ (e = OverflowError \/ e = ZeroDivisionError)
               /\ writes tracker' = writes tracker
               /\ file tracker' = file tracker
           end).
Proof.
  intros outcome called. subst outcome called.
  unfold menu_record_match. cbv zeta.
  destruct (Nat.ltb_spec (List.length (self_players tracker)) 4) as [Hlt|Hlen].
  { split; [intros _; now left|]. intros (H & _). lia. }
  destruct (forallb (Dict.mem (self_players tracker))
              [player1; player2; player3; player4]) eqn:Hall.
  2:{ split; [intros _; right; now left|]. intros (_ & H & _).
      apply forallb_forall in H. congruence. }
  rewrite forallb_forall in Hall.
  destruct score1 as [s1|].
  2:{ split; [intros _; right; now right|]. intros (_ & _ & H & _).
      congruence. }
  destruct score2 as [s2|].
  2:{ split; [intros _; right; now right|]. intros (_ & _ & _ & H).
      congruence. }
  split.
  { intros Hn. exfalso. apply Hn. repeat split; auto; discriminate. }
  intros _.
  destruct (record_match_state pow tracker [player1; player2]
              [player3; player4] s1 s2 now) as (M & Hk & H).
  destruct (ensure_players_appended ([player1; player2] ++ [player3; player4])
              tracker) as (added & Hk0 & _ & Hin & _ & Hid).
  assert (added = []) as ->.
  { destruct added as [|p added]; [reflexivity|]. exfalso.
    destruct (proj1 (Hin p) (or_introl eq_refl)) as [Hp Hm].
    rewrite (Hall p Hp) in Hm. discriminate. }
  rewrite (Hid eq_refl) in *.
  exists s1, s2,
    (state_of (record_match pow tracker [player1; player2]
                 [player3; player4] s1 s2 now)).
  split; [reflexivity|]. split; [reflexivity|].
  split; [exact Hk|]. split; [exact M|].
  destruct (rating_change pow (self_players tracker) [player1; player2]
              [player3; player4] (s1 >? s2)%Z) as [change|e].
  - destruct H as (E & _ & F & Hw). rewrite E at 1.
    split; [reflexivity|]. split; [exact Hw|exact F].
  - destruct H as (E & He & _ & F & Hw). rewrite E at 1.
    split; [reflexivity|]. split; [exact He|]. split; [exact Hw|exact F].
Qed.

(** X18 at four new players, where the match is recorded whatever the C
    library; and at A and B rated 0 against C and D rated 200000, where the
    exponent is 500 and a C library whose [pow] answers infinity makes the
    entry end [main] with [OverflowError], the file not written. *)
Lemma menu_record_match_adds_nobody_example :
  (forall pow : libm_pow,
     exists tracker',
       menu_record_match pow club "A" "B" "C" "D" (Some 21%Z) (Some 15%Z)
         TrackerSpec.stamp = MatchRecorded tracker'
       /\ Dict.keys (self_players tracker') = ["A"; "B"; "C"; "D"]
       /\ writes tracker' = 1%nat)
  /\ (forall pow : libm_pow,
        fst (pow 10%float 500%float) = infinity ->
        exists tracker',
          menu_record_match pow lopsided "A" "B" "C" "D"
            (Some 21%Z) (Some 15%Z) TrackerSpec.stamp
          = Uncaught OverflowError tracker'
          /\ file tracker' = None
          /\ writes tracker' = 0%nat).
Proof.
  assert (Hcalled : forall t : Tracker,
            self_players t = self_players club \/
            self_players t = self_players lopsided ->
            (4 <= List.length (self_players t))%nat
            /\ (forall p, In p ["A"; "B"; "C"; "D"] ->
                  Dict.mem (self_players t) p = true)
            /\ Some 21%Z <> None /\ Some 15%Z <> None).
  { intros t Ht. split; [destruct Ht as [-> | ->]; simpl; lia|].
    split; [|split; discriminate].
    intros p Hp. simpl in Hp.
    destruct Ht as [-> | ->];
      decompose [or] Hp; subst; try reflexivity; contradiction. }
  split.
  - intros pow.
    destruct (menu_record_match_adds_nobody pow club "A" "B" "C" "D"
                (Some 21%Z) (Some 15%Z) TrackerSpec.stamp) as [_ H].
    destruct (H (Hcalled club (or_introl eq_refl)))
      as (s1 & s2 & t' & E1 & E2 & Hk & _ & Hrec).
    inversion E1; subst s1. inversion E2; subst s2.
    change (rating_change pow (self_players club) ["A"; "B"] ["C"; "D"]
              (21 >? 15)%Z) with (Value 16%float) in Hrec.
    destruct Hrec as (E & Hw & _).
    exists t'. split; [exact E|]. split; [exact Hk|exact Hw].
  - intros pow Hpow.
    destruct (menu_record_match_adds_nobody pow lopsided "A" "B" "C" "D"
                (Some 21%Z) (Some 15%Z) TrackerSpec.stamp) as [_ H].
    destruct (H (Hcalled lopsided (or_intror eq_refl)))
      as (s1 & s2 & t' & E1 & E2 & _ & _ & Hrec).
    inversion E1; subst s1. inversion E2; subst s2.
    assert (Hc : rating_change pow (self_players lopsided) ["A"; "B"]
                   ["C"; "D"] (21 >? 15)%Z = Raises OverflowError).
    { unfold rating_change.
      change (team_rating (self_players lopsided) ["A"; "B"])
        with (Value 0%float).
      change (team_rating (self_players lopsided) ["C"; "D"])
        with (Value 200000%float).
      unfold rating_change_of, expected_team1.
      change ((200000 - 0) / 400)%float with 500%float.
      unfold ten_to_the.
      change (500 =? 0)%float with false.
      change (is_nan 500) with false.
      change (is_infinity 500) with false. cbv iota.
      destruct (pow 10%float 500%float) as [ix erange].
      simpl in Hpow. subst ix. now destruct erange. }
    rewrite Hc in Hrec. destruct Hrec as (E & _ & Hw & F).
    exists t'. split; [exact E|]. split; [exact F|exact Hw].
Defined.

(** ** The formula and its floats *)

(** The rating change once [10 ** x] has answered [power] without
    raising. *)
Lemma rating_change_of_answer (pow : libm_pow) (r1 r2 power : float)
    (won : bool) :
  ten_to_the pow ((r2 - r1) / 400) = Value power ->
  rating_change_of pow r1 r2 won
  = match truediv 1 (1 + power) with
    | Value e => Value (K * (actual_score won - e))%float
    | Raises x => Raises x
    end.
Proof.
  intros H. unfold rating_change_of, expected_team1. now rewrite H.
Qed.

(** [10 ** x] is what [pow] answers, for an exponent that is neither zero
    nor NaN nor infinite and an answer that is finite and came without a
    range error. *)
Lemma ten_to_the_answer (pow : libm_pow) (x ix : float) :
  (x =? 0)%float = false -> is_nan x = false -> is_infinity x = false ->
  pow 10%float x = (ix, false) -> is_infinity ix = false ->
  ten_to_the pow x = Value ix.
Proof.
  intros H0 Hn Hi Hp Hx. unfold ten_to_the.
  now rewrite H0, Hn, Hi, Hp, Hx.
Qed.

(** X3. Read over the real numbers, before any rounding, the formula of
    [update_ratings] gives team 1 a gain of less than 32 when it won and a
    loss of less than 32 when it did not: never zero, never 32.  The floats
    reach both ends: with team ratings 20000 and 0 the exponent is -50, and
    when the C library answers [1e-50] for [10 ** -50] the change is exactly
    0 for a win and exactly -32 otherwise; the other way round, with
    [1e50] for [10 ** 50], the change of a win is exactly 32. *)
Theorem rating_change_sign :
  (forall r1 r2 : R,
     (0 < BadmintonTracker.rating_change_of r1 r2 true < 32)%R
     /\ (-32 < BadmintonTracker.rating_change_of r1 r2 false < 0)%R)
  /\ (forall pow : libm_pow,
        pow 10%float (-50)%float = (0x1.dee7a4ad4b81fp-167%float, false) ->
        rating_change_of pow 20000 0 true = Value 0%float
        /\ rating_change_of pow 20000 0 false = Value (-32)%float)
  /\ (forall pow : libm_pow,
        pow 10%float 50%float = (0x1.11b0ec57e649ap+166%float, false) ->
        rating_change_of pow 0 20000 true = Value 32%float).
Proof.
  split; [|split].
  - intros r1 r2.
    assert (H0 := TrackerClaims.expected_team1_pos r1 r2).
    assert (H1 := TrackerClaims.expected_team1_lt_1 r1 r2).
    unfold BadmintonTracker.rating_change_of, BadmintonTracker.K,
      BadmintonTracker.actual_score. split; lra.
  - intros pow Hp.
    assert (E : ten_to_the pow ((0 - 20000) / 400)
                = Value 0x1.dee7a4ad4b81fp-167%float).
    { apply (@ten_to_the_answer pow); try reflexivity. exact Hp. }
    split.
    + now rewrite (@rating_change_of_answer pow 20000 0 _ true E).
    + now rewrite (@rating_change_of_answer pow 20000 0 _ false E).
  - intros pow Hp.
    assert (E : ten_to_the pow ((20000 - 0) / 400)
                = Value 0x1.11b0ec57e649ap+166%float).
    { apply (@ten_to_the_answer pow); try reflexivity. exact Hp. }
    now rewrite (@rating_change_of_answer pow 0 20000 _ true E).
Qed.

(** X4. Read over the real numbers, the expected scores of the two teams
    add up to 1, so the formula of [update_ratings] gives opposite changes
    when the teams and the result are exchanged: which team is given first
    does not matter.  The floats need not agree to the last digit: between
    team ratings 400 and 0, when the C library answers [0.1] (the float
    nearest to it) for [10 ** -1] and [10] for [10 ** 1], the change of the
    win of the team rated 400 is 2.9090909090909101 when that team is given
    first and 2.9090909090909092 when it is given second. *)
Theorem rating_change_teams_exchanged :
  (forall r1 r2 : R,
     (BadmintonTracker.expected_team1 r1 r2
      + BadmintonTracker.expected_team1 r2 r1 = 1)%R)
  /\ (forall (r1 r2 : R) (won : bool),
        (BadmintonTracker.rating_change_of r2 r1 (negb won)
         = - BadmintonTracker.rating_change_of r1 r2 won)%R)
  /\ (forall pow : libm_pow,
        pow 10%float (-1)%float = (0x1.999999999999ap-4%float, false) ->
        pow 10%float 1%float = (10%float, false) ->
        rating_change_of pow 400 0 true = Value 0x1.745d1745d1748p+1%float
        /\ rating_change_of pow 0 400 false
           = Value (- 0x1.745d1745d1746p+1)%float
        /\ 0x1.745d1745d1748p+1%float <> 0x1.745d1745d1746p+1%float).
Proof.
  split; [exact TrackerExtras.expected_team1_swap|].
  split; [exact TrackerExtras.rating_change_of_swap|].
  intros pow Hm Hp.
  assert (E1 : ten_to_the pow ((0 - 400) / 400)
               = Value 0x1.999999999999ap-4%float).
  { apply (@ten_to_the_answer pow); try reflexivity. exact Hm. }
  assert (E2 : ten_to_the pow ((400 - 0) / 400) = Value 10%float).
  { apply (@ten_to_the_answer pow); try reflexivity. exact Hp. }
  split; [|split].
  - now rewrite (@rating_change_of_answer pow 400 0 _ true E1).
  - now rewrite (@rating_change_of_answer pow 0 400 _ false E2).
  - intros H. apply (f_equal FloatOps.Prim2SF) in H. vm_compute in H.
    discriminate.
Qed.

End RecordExtras.
